(** * Garden-Overseer: the scheduled fetch / parse / diff / notify pipeline

    A shallow embedding of [bot.py].  Python values are modelled as follows.

    - [str] is [string]; [str.lower] and [str.strip] are modelled on ASCII.
    - [int] is [Z]; [//] is [Z.div] (both round towards minus infinity).
    - [datetime] is a record of its seven fields; comparison is the
      comparison of the field tuples, as in CPython for two values that
      carry the same [tzinfo].
    - A [dict] whose iteration order is observable ([stock], [mentions],
      [bot.subscriptions]) is an association list kept in insertion
      order; [bot.last_snapshot], which is only read and written by key,
      is a [gmap]; [bot.known_items] is a [gset].
    - Functions that mutate [bot] take the old state and return the new
      one. *)

From Stdlib Require Import Ascii String QArith.
From Equations Require Import Equations.
From stdpp Require Import gmap strings list fin_maps pretty.

Set Warnings "-clear-no-such-hyp".

(** ** Python strings *)

Module Str.

Definition lower_char (c : ascii) : ascii :=
  let n := nat_of_ascii c in
  if (65 <=? n)%nat && (n <=? 90)%nat then ascii_of_nat (n + 32) else c.

(** [s.lower()] *)
Fixpoint lower (s : string) : string :=
  match s with
  | EmptyString => EmptyString
  | String c s' => String (lower_char c) (lower s')
  end.

(** The characters [str.strip()] removes (ASCII range). *)
Definition is_space (c : ascii) : bool :=
  let n := nat_of_ascii c in
  ((9 <=? n)%nat && (n <=? 13)%nat) || ((28 <=? n)%nat && (n <=? 32)%nat).

Fixpoint lstrip (s : string) : string :=
  match s with
  | EmptyString => EmptyString
  | String c s' => if is_space c then lstrip s' else s
  end.

(** [rstrip] keeps a character when it is not a space or when something
    survives to its right. *)
Fixpoint rstrip (s : string) : string :=
  match s with
  | EmptyString => EmptyString
  | String c s' =>
      match rstrip s' with
      | EmptyString => if is_space c then EmptyString else String c EmptyString
      | r => String c r
      end
  end.

(** [s.strip()] *)
Definition strip (s : string) : string := rstrip (lstrip s).

(** [sep.join(l)] *)
Fixpoint join (sep : string) (l : list string) : string :=
  match l with
  | [] => ""
  | [x] => x
  | x :: rest => x +:+ sep +:+ join sep rest
  end.

(** [s.split(",")]: never empty, one more piece than there are commas. *)
Fixpoint split_comma_aux (cur : string) (s : string) : list string :=
  match s with
  | EmptyString => [cur]
  | String c s' =>
      if Ascii.eqb c ","%char then cur :: split_comma_aux "" s'
      else split_comma_aux (cur +:+ String c EmptyString) s'
  end.

Definition split_comma (s : string) : list string := split_comma_aux "" s.

End Str.

(** ** Wall-clock time *)

Module DateTime.

Local Open Scope Z_scope.

Record datetime := mk_datetime {
  year : Z; month : Z; day : Z;
  hour : Z; minute : Z; second : Z; microsecond : Z
}.

#[global] Instance datetime_eq_dec : EqDecision datetime.
Proof. solve_decision. Defined.

(** [now.replace(hour=h, minute=m, second=s, microsecond=us)]: the date
    fields are those of [now]. *)
Definition replace (now : datetime) (h m s us : Z) : datetime :=
  {| year := year now; month := month now; day := day now;
     hour := h; minute := m; second := s; microsecond := us |}.

Definition fields (d : datetime) : list Z :=
  [year d; month d; day d; hour d; minute d; second d; microsecond d].

(** Python's [<] on tuples of integers. *)
Fixpoint tuple_ltb (a b : list Z) : bool :=
  match a, b with
  | [], [] => false
  | [], _ :: _ => true
  | _ :: _, [] => false
  | x :: a', y :: b' => if x =? y then tuple_ltb a' b' else x <? y
  end.

Definition dt_ltb (a b : datetime) : bool := tuple_ltb (fields a) (fields b).
Definition dt_lt (a b : datetime) : Prop := dt_ltb a b = true.
Definition dt_le (a b : datetime) : Prop := a = b ∨ dt_lt a b.

(** The time-of-day fields are in the ranges [datetime] enforces. *)
Definition valid (d : datetime) : Prop :=
  0 <= hour d < 24 ∧ 0 <= minute d < 60 ∧
  0 <= second d < 60 ∧ 0 <= microsecond d < 1000000.

(** A point of the polling grid: minute 1, 6, ..., 56, nothing below the
    minute. *)
Definition aligned (d : datetime) : Prop :=
  minute d mod 5 = 1 ∧ second d = 0 ∧ microsecond d = 0.

Definition same_date (a b : datetime) : Prop :=
  year a = year b ∧ month a = month b ∧ day a = day b.

End DateTime.

Import DateTime.

(** [calculate_next_scrape_time], lines 88-110. *)
Definition calculate_next_scrape_time (now : datetime) : datetime :=
  let current_minute := minute now in
  let target_minute := ((current_minute / 5) * 5 + 1)%Z in
  let target_minute :=
    if (target_minute <=? current_minute)%Z then (target_minute + 5)%Z
    else target_minute in
  let '(target_minute, next_hour) :=
    if (target_minute >=? 60)%Z then
      let next_hour := (hour now + 1)%Z in
      ((target_minute - 60)%Z, if (next_hour =? 24)%Z then 0%Z else next_hour)
    else (target_minute, hour now) in
  replace now next_hour target_minute 0 0.

(** ** Insertion-ordered dictionaries

    [stock], [mentions] and [bot.subscriptions] are dictionaries whose
    iteration order (insertion order) shows in the messages the bot sends. *)

Module Dict.

Section Ops.
Context {V : Type}.

(** [d.get(k)] *)
Fixpoint get (k : string) (d : list (string * V)) : option V :=
  match d with
  | [] => None
  | (k', v) :: d' => if decide (k' = k) then Some v else get k d'
  end.

(** [d[k] = v]: an existing key keeps its place, a new key goes last. *)
Fixpoint set (k : string) (v : V) (d : list (string * V)) : list (string * V) :=
  match d with
  | [] => [(k, v)]
  | (k', v') :: d' =>
      if decide (k' = k) then (k, v) :: d' else (k', v') :: set k v d'
  end.

Definition keys (d : list (string * V)) : list string := d.*1.
Definition values (d : list (string * V)) : list V := d.*2.
End Ops.

(** [d[k].append(x)] on a [defaultdict(list)]. *)
Definition append {A : Type} (k : string) (x : A)
    (d : list (string * list A)) : list (string * list A) :=
  set k (default [] (get k d) ++ [x]) d.

End Dict.

(** An item is the pair [(name, qty)]; a stock is what one scrape returns. *)
Definition item : Type := string * string.
Definition stock_t : Type := list (string * list item).

(** ** The document tree

    The tree [BeautifulSoup(text, "html.parser")] builds, with the part of
    the bs4 interface [scrape_garden_stock] calls.  The [class] attribute,
    which bs4 keeps as a list, is a field of its own; [attrs] holds the
    other attributes. *)

Module Soup.

#[warnings="-register-all"]
Inductive node :=
| NavigableString (s : string)
| Tag (name : string) (classes : list string)
      (attrs : list (string * string)) (contents : list node).

(** A tag as the program holds it: the node and the siblings after it. *)
Definition element : Type := node * list node.

Definition is_tag (name : string) (n : node) : bool :=
  match n with
  | Tag name' _ _ _ => bool_decide (name' = name)
  | NavigableString _ => false
  end.

Definition has_class (c : string) (n : node) : bool :=
  match n with
  | Tag _ classes _ _ => bool_decide (c ∈ classes)
  | NavigableString _ => false
  end.

(** Document order, every node with its following siblings. *)
Fixpoint walk (n : node) (next : list node) : list element :=
  (n, next) ::
  match n with
  | NavigableString _ => []
  | Tag _ _ _ contents =>
      (fix walk_list (l : list node) : list element :=
         match l with
         | [] => []
         | c :: rest => walk c rest ++ walk_list rest
         end) contents
  end.

Fixpoint walk_list (l : list node) : list element :=
  match l with
  | [] => []
  | c :: rest => walk c rest ++ walk_list rest
  end.

Definition descendants (n : node) : list element :=
  match n with
  | NavigableString _ => []
  | Tag _ _ _ contents => walk_list contents
  end.

(** [tag.string]: the text of a tag whose single child is a string, or a
    tag that has a [.string] itself. *)
Fixpoint dot_string (n : node) : option string :=
  match n with
  | NavigableString s => Some s
  | Tag _ _ _ [c] => dot_string c
  | Tag _ _ _ _ => None
  end.

(** The strings below a node, in document order. *)
Fixpoint all_strings (n : node) : list string :=
  match n with
  | NavigableString s => [s]
  | Tag _ _ _ contents =>
      (fix all_strings_list (l : list node) : list string :=
         match l with
         | [] => []
         | c :: rest => all_strings c ++ all_strings_list rest
         end) contents
  end.

(** [tag.get_text(strip=True)]: every string stripped, the empty ones
    dropped, the rest concatenated. *)
Definition get_text_strip (e : element) : string :=
  Str.join ""
    (filter (λ s, s ≠ "") (Str.strip <$> all_strings e.1)).

(** [soup.find(name, string=s)] *)
Definition find_string (name s : string) (soup : list node) : option element :=
  head (filter (λ e, is_tag name e.1 ∧ dot_string e.1 = Some s) (walk_list soup)).

(** [tag.find_next_sibling(name)] *)
Fixpoint next_siblings (l : list node) : list element :=
  match l with
  | [] => []
  | n :: rest => (n, rest) :: next_siblings rest
  end.

Definition find_next_sibling (name : string) (e : element) : option element :=
  head (filter (λ e', is_tag name e'.1 = true) (next_siblings e.2)).

(** [tag.find_all(name, class_=c)] and [tag.select("name.c")] *)
Definition find_all (name c : string) (e : element) : list element :=
  filter (λ e', is_tag name e'.1 ∧ has_class c e'.1) (descendants e.1).

(** [tag.find(name)] *)
Definition find (name : string) (e : element) : option element :=
  head (filter (λ e', is_tag name e'.1 = true) (descendants e.1)).

(** [tag.find(name, class_=c)] and [tag.select_one("name.c")] *)
Definition find_class (name c : string) (e : element) : option element :=
  head (find_all name c e).

(** [soup.select("h2.text-xl.font-bold.mb-2.text-center")] *)
Definition select_h2 (soup : list node) : list element :=
  filter (λ e, is_tag "h2" e.1 ∧
               Forall (λ c, has_class c e.1 = true)
                      ["text-xl"; "font-bold"; "mb-2"; "text-center"])
         (walk_list soup).

(** [tag.get(key, default)] *)
Definition get (key dflt : string) (e : element) : string :=
  match e.1 with
  | Tag _ _ attrs _ => default dflt (Dict.get key attrs)
  | NavigableString _ => dflt
  end.

(** [tag[key]]: [None] stands for the [KeyError] *)
Definition getitem (key : string) (e : element) : option string :=
  match e.1 with
  | Tag _ _ attrs _ => Dict.get key attrs
  | NavigableString _ => None
  end.

End Soup.

(** ** Exceptions

    A computation that may raise carries the text [str(e)] of the
    exception; [scrape_garden_stock] turns it into an error message. *)

Inductive result (A : Type) : Type :=
| Ok (a : A)
| Raise (e : string).
Arguments Ok {A} a.
Arguments Raise {A} e.

Definition bind {A B : Type} (m : result A) (k : A → result B) : result B :=
  match m with
  | Ok a => k a
  | Raise e => Raise e
  end.

Notation "x ←! m ; k" := (bind m (λ x, k))
  (at level 20, m at level 100, k at level 200, only parsing).

(** A [for] loop whose body may raise: the first exception ends it. *)
Fixpoint for_each {A B : Type} (body : A → B → result A) (acc : A) (l : list B)
    : result A :=
  match l with
  | [] => Ok acc
  | x :: l' => acc' ←! body acc x; for_each body acc' l'
  end.

(** ** Fetcher and parser *)

(** What one GET comes back with.  [body] is the tree the HTML parser
    builds from the response text. *)
Inductive response :=
| RequestTimeout
| NetworkFailure (detail : string)
| Response (status : Z) (body : list Soup.node).

(** The pair [scrape_garden_stock] returns: [(data, None)] or
    [(None, message)]. *)
Definition scrape_result : Type := option stock_t * option string.

(** Lines 150-154 and 180-184: the body of the seeds and eggs loops, up
    to the [append]. *)
Definition dedicated_item (li : Soup.element) : option item :=
  match Soup.find "img" li, Soup.find_class "span" "text-gray-400" li with
  | Some img, Some span =>
      let name := Str.strip (Soup.get "alt" "" img) in
      let qty := Soup.get_text_strip span in
      Some (name, qty)
  | _, _ => None
  end.

(** Lines 167-171: the body of the loop of the other categories;
    [img["alt"]] raises [KeyError('alt')] when the attribute is missing. *)
Definition generic_item (li : Soup.element) : result (option item) :=
  match Soup.find "img" li, Soup.find_class "span" "text-gray-400" li with
  | Some img, Some span =>
      match Soup.getitem "alt" img with
      | Some alt =>
          let name := Str.strip alt in
          let qty := Soup.get_text_strip span in
          Ok (Some (name, qty))
      | None => Raise "'alt'"
      end
  | _, _ => Ok None
  end.

Definition append_item (cat : string) (data : stock_t) (it : option item) : stock_t :=
  match it with
  | Some it => Dict.append cat it data
  | None => data
  end.

(** Lines 145-155 (seeds) and 175-185 (eggs), which differ in the label
    only. *)
Definition dedicated_section (label : string) (soup : list Soup.node)
    (data : stock_t) : stock_t :=
  match Soup.find_string "h2" label soup with
  | Some header =>
      match Soup.find_next_sibling "ul" header with
      | Some ul =>
          foldl (λ data li, append_item label data (dedicated_item li))
                data (Soup.find_all "li" "bg-gray-900" ul)
      | None => data
      end
  | None => data
  end.

(** Lines 158-172. *)
Definition generic_sections (soup : list Soup.node) (data : stock_t)
    : result stock_t :=
  for_each (λ data h2,
      let cat := Soup.get_text_strip h2 in
      if decide (cat = "SEEDS STOCK") then Ok data
      else
        match Soup.find_next_sibling "ul" h2 with
        | None => Ok data
        | Some ul =>
            for_each (λ data li,
                it ←! generic_item li; Ok (append_item cat data it))
              data (Soup.find_all "li" "bg-gray-900" ul)
        end)
    data (Soup.select_h2 soup).

(** Lines 141-187, the body of the second [try]. *)
Definition parse_stock (soup : list Soup.node) : result stock_t :=
  let data := [] in
  let data := dedicated_section "SEEDS STOCK" soup data in
  data ←! generic_sections soup data;
  let data := dedicated_section "EGGS STOCK" soup data in
  Ok data.

(** [scrape_garden_stock], lines 115-190, as a function of what the
    network answered. *)
Definition scrape_garden_stock (resp : response) : scrape_result :=
  match resp with
  | RequestTimeout => (None, Some "Request Timeout")
  | NetworkFailure detail => (None, Some ("Network error: " +:+ detail))
  | Response status body =>
      if decide (status = 520%Z) then (None, Some "Cloudflare 520 Error")
      else if decide (status ≠ 200%Z) then
        (None, Some ("HTTP Error " +:+ pretty status))
      else
        match parse_stock body with
        | Ok data => (Some data, None)
        | Raise e => (None, Some ("Parse error: " +:+ e))
        end
  end.

(** ** Shared state and messages *)

(** The attributes the pipeline keeps on [bot] (lines 47-52). *)
Record bot_state := mk_bot {
  subscriptions : list (string * list string);
  known_items : gset string;
  current_interval : Z;
  last_snapshot : gmap string (list item);
  autoscrape_enabled : bool
}.

(** The part of a [discord.Embed] the bot fills in. *)
Record embed := mk_embed {
  title : string;
  color : Z;
  timestamp : datetime;
  footer : string;
  embed_fields : list (string * string)
}.

Inductive message :=
| Text (content : string)
| Rich (e : embed).

(** ** Retry coordinator

    [await scrape_garden_stock()] and [await asyncio.sleep(delay)] act on
    the outside world: the [n]-th GET of the process is answered by
    [network n], and every await is recorded in [trace]: a scrape, a
    sleep, or a message sent to a channel. *)

Inductive event :=
| EvScrape
| EvSleep (seconds : Z)
| EvSend (channel : Z) (msg : message).

Record world := mk_world {
  network : nat → response;
  fetched : nat;
  trace : list event
}.

Definition await_scrape (w : world) : scrape_result * world :=
  (scrape_garden_stock (network w (fetched w)),
   {| network := network w; fetched := S (fetched w);
      trace := trace w ++ [EvScrape] |}).

Definition await_sleep (seconds : Z) (w : world) : world :=
  {| network := network w; fetched := fetched w;
     trace := trace w ++ [EvSleep seconds] |}.

(** The [while] loop of lines 196-204, entered with the current values of
    [attempts] and [error]. *)
Equations? retry_loop (max_attempts delay attempts : Z) (error : option string)
    (w : world) : scrape_result * world
    by wf (Z.to_nat (max_attempts - attempts)) lt :=
  retry_loop max_attempts delay attempts error w
    with decide (attempts < max_attempts)%Z := {
    | right _ => ((None, error), w)
    | left _ with await_scrape w := {
      | ((Some stock, _), w1) => ((Some stock, None), w1)
      | ((None, err), w1) =>
          retry_loop max_attempts delay (attempts + 1) err
            (if decide (attempts + 1 < max_attempts)%Z
             then await_sleep delay w1 else w1) } }.
Proof. lia. Qed.

(** [scrape_with_retries], lines 192-205. *)
Definition scrape_with_retries (max_attempts delay : Z) (w : world)
    : scrape_result * world :=
  retry_loop max_attempts delay 0 None w.


Definition await_send (channel : Z) (msg : message) (w : world) : world :=
  {| network := network w; fetched := fetched w;
     trace := trace w ++ [EvSend channel msg] |}.

(** ** Differ, matcher and notifier *)

Definition nl : string := String (ascii_of_nat 10) EmptyString.

(** [%H], [%M], [%S]: two digits. *)
Definition two_digits (n : Z) : string :=
  if (n <? 10)%Z then "0" +:+ pretty n else pretty n.

Definition hms (h m s : Z) : string :=
  two_digits h +:+ ":" +:+ two_digits m +:+ ":" +:+ two_digits s.

(** [f"{now + timedelta(seconds=interval):%H:%M:%S}"]: only the time of
    day shows, so the date of the sum is not needed. *)
Definition hms_after (now : datetime) (interval : Z) : string :=
  let t := ((hour now * 3600 + minute now * 60 + second now + interval)
              mod 86400)%Z in
  hms (t / 3600) (t mod 3600 / 60) (t mod 60).

Definition mention (uid : string) : string := "<@" +:+ uid +:+ ">".

(** Lines 225-227: the subscribers of one item name. *)
Definition mention_subscribers (subs : list (string * list string))
    (name : string) (mentions : list (string * list string))
    : list (string * list string) :=
  foldl (λ mentions '(uid, user_items),
      if bool_decide (Str.lower name ∈ Str.lower <$> user_items)
      then Dict.append name (mention uid) mentions
      else mentions)
    mentions subs.

(** Lines 224-227. *)
Definition mention_items (subs : list (string * list string))
    (items : list item) (mentions : list (string * list string))
    : list (string * list string) :=
  foldl (λ mentions '(name, _), mention_subscribers subs name mentions)
    mentions items.

Definition always_notify : list string :=
  ["GEAR STOCK"; "SEEDS STOCK"; "EGGS STOCK"].

(** The test of line 223, with [prev] of line 222. *)
Definition category_changed (last : gmap string (list item))
    (cat : string) (items : list item) : bool :=
  let prev := default [] (last !! cat) in
  bool_decide (cat ∈ always_notify) || bool_decide (prev ≠ items).

(** What the loop of lines 218-229 carries from one category to the
    next. *)
Record embed_loop := mk_loop {
  loop_fields : list (string * string);
  loop_mentions : list (string * list string);
  loop_last : gmap string (list item)
}.

(** Lines 219-229: one category. *)
Definition build_embed_step (subs : list (string * list string))
    (st : embed_loop) (entry : string * list item) : embed_loop :=
  let '(cat, items) := entry in
  let desc := Str.join nl ((λ '(n, q), n +:+ ": " +:+ q) <$> items) in
  let desc := if decide (desc = "") then "No items" else desc in
  {| loop_fields := loop_fields st ++ [(cat, desc)];
     loop_mentions :=
       if category_changed (loop_last st) cat items
       then mention_items subs items (loop_mentions st)
       else loop_mentions st;
     loop_last := <[cat := items]> (loop_last st) |}.

Definition with_last_snapshot (bot : bot_state)
    (last : gmap string (list item)) : bot_state :=
  {| subscriptions := subscriptions bot; known_items := known_items bot;
     current_interval := current_interval bot; last_snapshot := last;
     autoscrape_enabled := autoscrape_enabled bot |}.

(** [build_embed], lines 207-231: the embed, the mentions, and [bot] with
    the snapshot entries the loop has written. *)
Definition build_embed (stock : stock_t) (now : datetime) (bot : bot_state)
    : embed * list (string * list string) * bot_state :=
  let st := foldl (build_embed_step (subscriptions bot))
              (mk_loop [] [] (last_snapshot bot)) stock in
  ({| title := "🌱 Grow A Garden Stock Update 🌱";
      color := 3066993;
      timestamp := now;
      footer := "Scraped: " +:+ hms (hour now) (minute now) (second now)
                +:+ " EST | Next: " +:+ hms_after now (current_interval bot)
                +:+ " EST";
      embed_fields := loop_fields st |},
   loop_mentions st,
   with_last_snapshot bot (loop_last st)).

(** ** One poll *)

(** [{n for items in stock.values() for n, _ in items}] *)
Definition item_names (stock : stock_t) : gset string :=
  list_to_set (concat ((λ items, items.*1) <$> Dict.values stock)).

(** Lines 279-282. *)
Definition alert_messages (mentions : list (string * list string)) : list string :=
  (λ '(item, users), item +:+ ": " +:+ Str.join " " users)
    <$> filter (λ p, p.2 ≠ []) mentions.

(** Lines 274-287, also 317-330: what follows a successful scrape. *)
Definition publish (stock : stock_t) (now : datetime) (channel : Z)
    (bot : bot_state) (w : world) : bot_state * world :=
  let bot := {| subscriptions := subscriptions bot;
                known_items := item_names stock;
                current_interval := current_interval bot;
                last_snapshot := last_snapshot bot;
                autoscrape_enabled := autoscrape_enabled bot |} in
  let '(embed, mentions, bot) := build_embed stock now bot in
  let w :=
    if decide (mentions ≠ []) then
      let alerts := alert_messages mentions in
      if decide (alerts ≠ []) then await_send channel (Text (Str.join nl alerts)) w
      else w
    else w in
  (bot, await_send channel (Rich embed) w).

(** Lines 258-287: one pass of [polling_loop] from the scrape on.
    [OWNER_ID] is the environment setting, [now] what the clock reads and
    [channel] what [get_garden_channel] finds. *)
Definition polling_loop_iteration (OWNER_ID : string) (now : datetime)
    (channel : option Z) (bot : bot_state) (w : world) : bot_state * world :=
  let '((stock, error), w) := scrape_with_retries 3 4 w in
  match channel with
  | None => (bot, await_sleep 60 w)
  | Some channel =>
      match stock with
      | None =>
          let owner_mention :=
            if decide (OWNER_ID ≠ "") then mention OWNER_ID else "@jaymaca" in
          let msg := owner_mention +:+ " ⚠️ **CRITICAL ERROR**" +:+ nl +:+
                     "All scrape attempts failed! Last error: " +:+
                     default "None" error in
          (bot, await_send channel (Text msg) w)
      | Some stock => publish stock now channel bot w
      end
  end.

(** ** Subscriptions *)

Section Subscribe.

(** [ratio x word] is [SequenceMatcher(None, x, word).ratio()], the score
    [difflib.get_close_matches] gives the candidate [x].  Python holds it
    as a float; it is the quotient of two integers bounded by the
    lengths of the strings, and the comparisons below are those of the
    exact quotients. *)
Variable ratio : string → string → Q.

(** Python's [<] on the pairs [(score, x)]. *)
Definition scored_lt (a b : Q * string) : bool :=
  match (a.1 ?= b.1)%Q with
  | Lt => true
  | Eq => String.ltb a.2 b.2
  | Gt => false
  end.

(** [max(it)]: the first of the greatest elements. *)
Definition max_scored (l : list (Q * string)) : option (Q * string) :=
  match l with
  | [] => None
  | x :: l' => Some (foldl (λ best y, if scored_lt best y then y else best) x l')
  end.

(** [difflib.get_close_matches(word, possibilities, n=1, cutoff)]: the
    candidates scoring at least [cutoff], of which
    [heapq.nlargest(1, ...)] keeps the greatest pair. *)
Definition get_close_matches (word : string) (possibilities : gset string)
    (cutoff : Q) : list string :=
  let result :=
    filter (λ p, Qle_bool cutoff p.1 = true)
           ((λ x, (ratio x word, x)) <$> elements possibilities) in
  match max_scored result with
  | Some (_, x) => [x]
  | None => []
  end.

Definition no_close_match (raw : string) : string :=
  "No close match for **" +:+ raw +:+ "**, added as-is.".

Definition already_subscribed (want : string) : string :=
  "Already subscribed to **" +:+ want +:+ "**.".

(** Lines 367-372: the item a piece of the input stands for, and the
    warning raised on the way. *)
Definition resolve (known : gset string) (raw want : string)
    : string * list string :=
  if decide (known ≠ ∅) then
    match get_close_matches want known (6 # 10) with
    | m :: _ => (m, [])
    | [] => (want, [no_close_match raw])
    end
  else (want, []).

(** What the loop of lines 363-377 updates. *)
Record sub_loop := mk_sub_loop {
  subs : list string;
  chosen : list string;
  warn : list string
}.

(** Lines 373-377: the resolved item joins the list unless the list has
    it already, whatever the case of the letters. *)
Definition register (st : sub_loop) (want : string) : sub_loop :=
  if existsb (λ i, bool_decide (Str.lower i = Str.lower want)) (subs st)
  then {| subs := subs st; chosen := chosen st;
          warn := warn st ++ [already_subscribed want] |}
  else {| subs := subs st ++ [want]; chosen := chosen st ++ [want];
          warn := warn st |}.

(** Lines 364-377: one piece of the comma-separated input. *)
Definition subscribe_step (known : gset string) (st : sub_loop)
    (raw : string) : sub_loop :=
  let want := Str.strip raw in
  if decide (want = "") then st
  else
    let '(want, warned) := resolve known raw want in
    register {| subs := subs st; chosen := chosen st;
                warn := warn st ++ warned |} want.

(** Lines 361-377: the loop over the pieces, from the user's list. *)
Definition subscribe_loop (known : gset string) (subs0 : list string)
    (items : string) : sub_loop :=
  foldl (subscribe_step known) (mk_sub_loop subs0 [] []) (Str.split_comma items).

Definition bold (s : string) : string := "**" +:+ s +:+ "**".

(** [subscribe], lines 358-384: the new state, whose table is what
    [save_subs] writes, and the reply sent to the caller. *)
Definition subscribe (uid : string) (items : string) (bot : bot_state)
    : bot_state * string :=
  let subs0 := default [] (Dict.get uid (subscriptions bot)) in
  let st := subscribe_loop (known_items bot) subs0 items in
  let res :=
    (if decide (chosen st ≠ [])
     then ["✅ Subscribed to: " +:+ Str.join ", " (bold <$> chosen st)]
     else []) ++ warn st in
  ({| subscriptions := Dict.set uid (subs st) (subscriptions bot);
      known_items := known_items bot;
      current_interval := current_interval bot;
      last_snapshot := last_snapshot bot;
      autoscrape_enabled := autoscrape_enabled bot |},
   if decide (res ≠ []) then Str.join nl res
   else "⚠️ No valid items to subscribe.").

End Subscribe.

(** * Vocabulary of the properties *)

(** ** Parser *)

(** Every item of a stock satisfies [P]. *)
Definition all_items (P : item → Prop) (data : stock_t) : Prop :=
  ∀ cat items it, (cat, items) ∈ data → it ∈ items → P it.

(** What a [defaultdict(list)] filled by [append] alone looks like: keys
    are distinct and no list is empty. *)
Definition well_formed (data : stock_t) : Prop :=
  NoDup (Dict.keys data) ∧ ∀ cat items, (cat, items) ∈ data → items ≠ [].

(** An item read off a list entry that has an image element and a
    quantity element. *)
Definition from_entry (it : item) : Prop :=
  ∃ li img span,
    Soup.find "img" li = Some img ∧
    Soup.find_class "span" "text-gray-400" li = Some span ∧
    it = (Str.strip (Soup.get "alt" "" img), Soup.get_text_strip span).

(** The invariant of the three extraction phases. *)
Definition extracted (data : stock_t) : Prop :=
  all_items from_entry data ∧ well_formed data.


(** ** Retry coordinator *)

(** What the [j]-th attempt from [w] on returns. *)
Definition outcome (w : world) (j : nat) : scrape_result :=
  scrape_garden_stock (network w (fetched w + j)).

(** [k] failed attempts, each followed by the delay, and one more
    attempt after which nothing is awaited. *)
Fixpoint attempts_trace (delay : Z) (k : nat) : list event :=
  match k with
  | O => [EvScrape]
  | S k' => EvScrape :: EvSleep delay :: attempts_trace delay k'
  end.

(** The world after those [k + 1] attempts. *)
Definition after_attempts (delay : Z) (w : world) (k : nat) : world :=
  {| network := network w; fetched := fetched w + S k;
     trace := trace w ++ attempts_trace delay k |}.

(** ** Differ and matcher *)

(** The notify policy in the specification's words: a designated
    category always, any other one when the previous snapshot does not
    hold this very list for it (a different list, or no entry). *)
Definition notifies (last : gmap string (list item)) (cat : string)
    (items : list item) : Prop :=
  cat ∈ always_notify ∨ last !! cat ≠ Some items.

#[global] Instance notifies_dec last cat items : Decision (notifies last cat items).
Proof. unfold notifies. apply _. Defined.

(** The item names that go through mention evaluation, one occurrence
    for every time they are listed. *)
Definition evaluated_names (last : gmap string (list item)) (stock : stock_t)
    : list string :=
  concat ((λ e, if decide (notifies last e.1 e.2) then e.2.*1 else []) <$> stock).

(** The subscribers of [name], in the order of the table. *)
Definition subscribers_of (subs : list (string * list string)) (name : string)
    : list string :=
  (filter (λ p, Str.lower name ∈ Str.lower <$> p.2) subs).*1.

(** How many times [x] is in [l]. *)
Definition occurrences {A : Type} `{EqDecision A} (x : A) (l : list A) : nat :=
  length (filter (λ y, y = x) l).

(** [mentions.get(name, [])] *)
Definition values_at (name : string) (m : list (string * list string)) : list string :=
  default [] (Dict.get name m).

(** The snapshot after the loop: every category of [stock] written over
    [last]. *)
Definition overwrite (stock : stock_t) (last : gmap string (list item))
    : gmap string (list item) :=
  foldl (λ m e, <[e.1 := e.2]> m) last stock.

(** ** Subscriptions *)

(** The list has [want], whatever the case of the letters. *)
Definition present (l : list string) (want : string) : Prop :=
  ∃ i, i ∈ l ∧ Str.lower i = Str.lower want.

(** The item a piece of the input stands for. *)
Definition resolved (ratio : string → string → Q) (known : gset string)
    (raw : string) : string :=
  (resolve ratio known raw (Str.strip raw)).1.

(** ** A similarity ratio

    The matching of [difflib.SequenceMatcher] without junk (the automatic
    junk heuristic only concerns a second sequence of 200 characters or
    more): the longest common block, earliest in the first sequence and
    then in the second, counted together with the matches to its left and
    to its right.  It instantiates [ratio] wherever a concrete score is
    needed. *)

Module Difflib.

Fixpoint common_prefix (a b : list ascii) : nat :=
  match a, b with
  | x :: a', y :: b' => if Ascii.eqb x y then S (common_prefix a' b') else 0
  | _, _ => 0
  end.

(** [find_longest_match]: the block [(i, j, k)]. *)
Definition find_longest_match (a b : list ascii) : nat * nat * nat :=
  foldl (λ best i,
      foldl (λ best j,
          let k := common_prefix (drop i a) (drop j b) in
          if (best.2 <? k)%nat then (i, j, k) else best)
        best (seq 0 (length b)))
    (0, 0, 0)%nat (seq 0 (length a)).

(** The sum of the sizes of [get_matching_blocks()]. *)
Fixpoint matches (fuel : nat) (a b : list ascii) : nat :=
  match fuel with
  | O => 0
  | S fuel' =>
      let '(i, j, k) := find_longest_match a b in
      if (k =? 0)%nat then 0
      else (k + matches fuel' (take i a) (take j b)
              + matches fuel' (drop (i + k) a) (drop (j + k) b))%nat
  end.

Definition ratio (x word : string) : Q :=
  let a := list_ascii_of_string x in
  let b := list_ascii_of_string word in
  let total := (length a + length b)%nat in
  if (total =? 0)%nat then 1%Q
  else (Z.of_nat (2 * matches (S (length a)) a b) # Pos.of_nat total)%Q.

End Difflib.

(** ** Sample inputs *)

Module Samples.
Import Soup.

Definition heading (t : string) : node :=
  Tag "h2" ["text-xl"; "font-bold"; "mb-2"; "text-center"] []
    [NavigableString t].

(** A list entry, with or without the [alt] attribute on its image and
    with or without the quantity element. *)
Definition entry (alt qty : option string) : node :=
  Tag "li" ["bg-gray-900"] []
    (Tag "img" [] (("src", "x.png") ::
                   match alt with Some a => [("alt", a)] | None => [] end) []
     :: Tag "span" [] [] [NavigableString "name"]
     :: match qty with
        | Some q => [Tag "span" ["text-gray-400"] [] [NavigableString q]]
        | None => []
        end).

(** An entry without any image. *)
Definition entry_no_img (qty : string) : node :=
  Tag "li" ["bg-gray-900"] []
    [Tag "span" ["text-gray-400"] [] [NavigableString qty]].

Definition page (l : list node) : list node :=
  [Tag "html" [] [] [Tag "body" [] [] l]].

Definition page_ok : list node :=
  page [heading "GEAR STOCK"; NavigableString " ";
        Tag "ul" [] [] [entry (Some " Rake ") (Some " x3 ");
                        entry (Some "Hoe") None; entry_no_img "x7"];
        heading "SEEDS STOCK";
        Tag "ul" [] [] [entry (Some "Carrot Seed") (Some "x5");
                        entry_no_img "x2"]].



(** Two failures, then a good page; then failures only. *)
Definition net_third_time (n : nat) : response :=
  match n with
  | 0 => RequestTimeout
  | 1 => Response 520 []
  | 2 => Response 200 page_ok
  | _ => Response 404 []
  end.

Definition net_down (n : nat) : response :=
  match n with
  | 0 => RequestTimeout
  | 1 => NetworkFailure "reset"
  | _ => Response 520 []
  end.

Definition noon : datetime := mk_datetime 2025 6 15 12 1 2 0.

Definition bot0 : bot_state :=
  {| subscriptions := [("42", ["carrot seed"; "Rake"]); ("7", ["RAKE"])];
     known_items := {["Carrot Seed"; "Tomato Seed"]};
     current_interval := 300;
     last_snapshot := {["HONEY STOCK" := [("Honey", "x1")]]};
     autoscrape_enabled := true |}.

Definition world_third_time : world := mk_world net_third_time 0 [].
Definition world_down : world := mk_world net_down 0 [].

(** What [page_ok] parses to. *)
Definition stock_ok : stock_t :=
  [("SEEDS STOCK", [("Carrot Seed", "x5")]); ("GEAR STOCK", [("Rake", "x3")])].

(** A user who subscribed to an item the latest stock lists under a
    slightly different name. *)
Definition bot_renamed : bot_state :=
  {| subscriptions := [("42", ["Carrot Seed"])];
     known_items := {["Carrot Seeds"]};
     current_interval := 300;
     last_snapshot := ∅;
     autoscrape_enabled := true |}.

(** A stock in which one name is listed twice. *)
Definition stock1 : stock_t :=
  [("SEEDS STOCK", [("Carrot Seed", "x5")]);
   ("HONEY STOCK", [("Honey", "x3")]);
   ("EGGS STOCK", [("Rake", "x1"); ("Rake", "x1")])].

End Samples.

(** * Further operations *)

(** ** Waiting for the next scrape *)

Module Calendar.

Local Open Scope Z_scope.

(** CPython's [_is_leap], [_days_before_year], [_days_before_month] and
    [_ymd2ord], behind [date.toordinal()]. *)
Definition is_leap (y : Z) : bool :=
  (y mod 4 =? 0) && (negb (y mod 100 =? 0) || (y mod 400 =? 0)).

Definition days_before_year (year : Z) : Z :=
  let y := year - 1 in
  y * 365 + y / 4 - y / 100 + y / 400.

Definition days_before_month (year month : Z) : Z :=
  nth (Z.to_nat month) [0; 0; 31; 59; 90; 120; 151; 181; 212; 243; 273; 304; 334] 0
  + (if (2 <? month) && is_leap year then 1 else 0).

Definition toordinal (d : datetime) : Z :=
  days_before_year (year d) + days_before_month (year d) (month d) + day d.

(** [(a - b)] for two values of one [tzinfo], as the [timedelta] fields
    before normalisation, and its [total_seconds()] counted in
    microseconds. *)
Definition sub_microseconds (a b : datetime) : Z :=
  let days := toordinal a - toordinal b in
  let secs := (second a + minute a * 60 + hour a * 3600)
              - (second b + minute b * 60 + hour b * 3600) in
  let us := microsecond a - microsecond b in
  (days * 86400 + secs) * 1000000 + us.

End Calendar.

(** Lines 248-255: [wait_seconds], in microseconds, and the sleep the loop
    makes before it scrapes ([None] when [wait_seconds > 0] fails). *)
Definition wait_microseconds (now : datetime) : Z :=
  let next_time := calculate_next_scrape_time now in
  Calendar.sub_microseconds next_time now.

Definition sleep_before_scrape (now : datetime) : option Z :=
  let wait := wait_microseconds now in
  if (0 <? wait)%Z then Some wait else None.

(** Lines 241-287: one pass of the [while] loop of [polling_loop] that no
    exception interrupts.  [now] is the clock at line 248 and [now'] the
    clock at line 258.  The sleep made before the scrape is returned
    beside the state: it precedes everything the pass adds to [trace]. *)
Definition polling_loop_pass (OWNER_ID : string) (now now' : datetime)
    (channel : option Z) (bot : bot_state) (w : world)
    : option Z * (bot_state * world) :=
  if negb (autoscrape_enabled bot) then (None, (bot, await_sleep 10 w))
  else (sleep_before_scrape now,
        polling_loop_iteration OWNER_ID now' channel bot w).

(** ** The output channel *)

Record channel_t := mk_channel {
  channel_id : Z;
  channel_name : string
}.

Record guild_t := mk_guild {
  guild_id : Z;
  text_channels : list channel_t
}.

(** [discord.utils.get(guild.text_channels, name="growagarden")]: the
    first channel of that name. *)
Definition garden_channel_of (g : guild_t) : option channel_t :=
  head (filter (λ c, channel_name c = "growagarden") (text_channels g)).

(** The loop of lines 74-77 over [bot.guilds]. *)
Fixpoint first_garden_channel (guilds : list guild_t) : option channel_t :=
  match guilds with
  | [] => None
  | g :: rest =>
      match garden_channel_of g with
      | Some c => Some c
      | None => first_garden_channel rest
      end
  end.

(** [get_garden_channel], lines 67-80; [guilds] is [bot.guilds]. *)
Definition get_garden_channel (guilds : list guild_t) (guild : option guild_t)
    : option channel_t :=
  match guild with
  | Some g =>
      match garden_channel_of g with
      | Some c => Some c
      | None => first_garden_channel guilds
      end
  | None => first_garden_channel guilds
  end.

(** ** Administration *)

(** The caller of a slash command: [interaction.user]. *)
Record member_t := mk_member {
  role_ids : list Z;
  administrator : bool
}.

(** [is_admin], lines 82-86.  [ctx.interaction] is [None] for a command
    sent as a message, and [interaction.user] then raises
    [AttributeError]. *)
Definition is_admin (ADMIN_ROLE_IDS : list Z) (interaction : option member_t)
    : result bool :=
  match interaction with
  | None => Raise "'NoneType' object has no attribute 'user'"
  | Some user =>
      if existsb (λ r, bool_decide (r ∈ ADMIN_ROLE_IDS)) (role_ids user)
      then Ok true
      else Ok (administrator user)
  end.

(** [autoscrape], lines 335-351: the new state and the reply. *)
Definition autoscrape (ADMIN_ROLE_IDS : list Z) (interaction : option member_t)
    (enable : bool) (now : datetime) (bot : bot_state)
    : result (bot_state * string) :=
  admin ←! is_admin ADMIN_ROLE_IDS interaction;
  if negb admin then Ok (bot, "❌ Admin only.")
  else
    let bot := {| subscriptions := subscriptions bot;
                  known_items := known_items bot;
                  current_interval := current_interval bot;
                  last_snapshot := last_snapshot bot;
                  autoscrape_enabled := enable |} in
    if enable then
      let next_time := calculate_next_scrape_time now in
      let next_str := hms (hour next_time) (minute next_time) (second next_time) in
      Ok (bot, "✅ Auto-scrape enabled! Next scrape at " +:+ next_str +:+ " EST")
    else Ok (bot, "⏸️ Auto-scrape disabled").

(** ** Manual scrape *)

(** [manual_scrape], lines 306-331, for a command that came as an
    interaction: the state, the world, and the replies sent to the
    caller.  [channel] is what [get_garden_channel(ctx.guild)] finds. *)
Definition manual_scrape (now : datetime) (channel : option Z)
    (bot : bot_state) (w : world) : bot_state * world * list string :=
  match channel with
  | None => (bot, w, ["❌ #growagarden channel not found!"])
  | Some channel =>
      let '((stock, error), w) := await_scrape w in
      match stock with
      | None =>
          let error := default "None" error in
          (bot,
           await_send channel (Text ("⚠️ Manual scrape failed: " +:+ error)) w,
           ["⚠️ Failed: " +:+ error])
      | Some stock =>
          let '(bot, w) := publish stock now channel bot w in
          (bot, w, ["✅ Update sent to #growagarden!"])
      end
  end.

(** ** Unsubscribing and listing *)

(** The [for ex in subs] loop of lines 395-399: the first entry equal to
    [want] up to case. *)
Definition first_match (want : string) (subs : list string) : option string :=
  head (filter (λ ex, Str.lower ex = Str.lower want) subs).

(** [l.remove(x)]: the list without its first [x]. *)
Fixpoint list_remove (x : string) (l : list string) : list string :=
  match l with
  | [] => []
  | y :: l' => if decide (y = x) then l' else y :: list_remove x l'
  end.

Definition not_subscribed (want : string) : string :=
  "Not subscribed to **" +:+ want +:+ "**.".

(** What the loop of lines 393-401 updates. *)
Record unsub_loop := mk_unsub_loop {
  remaining : list string;
  removed : list string;
  unsub_warn : list string
}.

(** Lines 394-401: one piece of the comma-separated input. *)
Definition unsubscribe_step (st : unsub_loop) (raw : string) : unsub_loop :=
  let want := Str.strip raw in
  match first_match want (remaining st) with
  | Some ex =>
      {| remaining := list_remove ex (remaining st);
         removed := removed st ++ [ex];
         unsub_warn := unsub_warn st |}
  | None =>
      {| remaining := remaining st;
         removed := removed st;
         unsub_warn := unsub_warn st ++ [not_subscribed want] |}
  end.

Definition unsubscribe_loop (subs0 : list string) (items : string) : unsub_loop :=
  foldl unsubscribe_step (mk_unsub_loop subs0 [] []) (Str.split_comma items).

(** [unsubscribe], lines 388-408.  [bot.subscriptions.get(uid, [])] does
    not enter [uid] in the table: a user without an entry stays without
    one. *)
Definition unsubscribe (uid : string) (items : string) (bot : bot_state)
    : bot_state * string :=
  let subs0 := default [] (Dict.get uid (subscriptions bot)) in
  let st := unsubscribe_loop subs0 items in
  let res :=
    (if decide (removed st ≠ [])
     then ["❌ Unsubscribed: " +:+ Str.join ", " (bold <$> removed st)]
     else []) ++ unsub_warn st in
  ({| subscriptions :=
        match Dict.get uid (subscriptions bot) with
        | Some _ => Dict.set uid (remaining st) (subscriptions bot)
        | None => subscriptions bot
        end;
      known_items := known_items bot;
      current_interval := current_interval bot;
      last_snapshot := last_snapshot bot;
      autoscrape_enabled := autoscrape_enabled bot |},
   if decide (res ≠ []) then Str.join nl res
   else "⚠️ No valid items to unsubscribe.").

(** [list_subs], lines 411-415: the reply. *)
Definition list_subs (uid : string) (bot : bot_state) : string :=
  let items := default [] (Dict.get uid (subscriptions bot)) in
  if decide (items ≠ [])
  then "📦 Your subscriptions: " +:+ Str.join ", " (bold <$> items)
  else "📭 You have no subscriptions.".

(** * Vocabulary of the further properties *)

(** The time of day in microseconds. *)
Definition time_of_day (d : datetime) : Z :=
  (((hour d * 60 + minute d) * 60 + second d) * 1000000 + microsecond d)%Z.

(** [data.get(k, [])] *)
Definition items_at (k : string) (data : stock_t) : list item :=
  default [] (Dict.get k data).

(** The items the seeds or eggs extraction reads under the heading it
    looks up by its text. *)
Definition dedicated_items (label : string) (soup : list Soup.node) : list item :=
  match Soup.find_string "h2" label soup with
  | Some header =>
      match Soup.find_next_sibling "ul" header with
      | Some ul => omap dedicated_item (Soup.find_all "li" "bg-gray-900" ul)
      | None => []
      end
  | None => []
  end.

(** The items the generic extraction reads under one heading. *)
Definition generic_items (h2 : Soup.element) : list item :=
  match Soup.find_next_sibling "ul" h2 with
  | Some ul => omap dedicated_item (Soup.find_all "li" "bg-gray-900" ul)
  | None => []
  end.

(** One heading of the generic loop, lines 159-172: the body of the
    [for] of [generic_sections]. *)
Definition generic_step (data : stock_t) (h2 : Soup.element) : result stock_t :=
  let cat := Soup.get_text_strip h2 in
  if decide (cat = "SEEDS STOCK") then Ok data
  else
    match Soup.find_next_sibling "ul" h2 with
    | None => Ok data
    | Some ul =>
        for_each (λ data li, bind (generic_item li) (λ it, Ok (append_item cat data it)))
          data (Soup.find_all "li" "bg-gray-900" ul)
    end.

(** What the generic extraction files under [k]: the items under every
    heading of the selector whose text is [k], in document order; nothing
    under the seeds label, which it skips. *)
Definition generic_part (k : string) (soup : list Soup.node) : list item :=
  if decide (k = "SEEDS STOCK") then []
  else concat (generic_items <$>
               filter (λ h2, Soup.get_text_strip h2 = k) (Soup.select_h2 soup)).

(** A category of [stock] that the policy always notifies. *)
Definition designated (stock : stock_t) : stock_t :=
  filter (λ e, e.1 ∈ always_notify) stock.

(** The line of the embed for one item, and the field of one category. *)
Definition item_line (it : item) : string := it.1 +:+ ": " +:+ it.2.

(** The item names of a stock, one for every listing. *)
Definition listed_names (stock : stock_t) : list string :=
  concat ((λ e, e.2.*1) <$> stock).

(** The digest line of one key of [mentions], lines 280-282. *)
Definition alert_line (p : string * list string) : string :=
  p.1 +:+ ": " +:+ Str.join " " p.2.

(** The field of the embed for one category, lines 219-220. *)
Definition embed_field (e : string * list item) : string * string :=
  let desc := Str.join nl (item_line <$> e.2) in
  (e.1, if decide (desc = "") then "No items" else desc).

(** The invariant of [mentions]: keys are distinct, every key is one of
    [names], and no list is empty. *)
Definition proper_mentions (names : list string)
    (m : list (string * list string)) : Prop :=
  NoDup (Dict.keys m) ∧
  ∀ name users, (name, users) ∈ m → name ∈ names ∧ users ≠ [].

(** Every mention stands for a subscriber of the name it is filed
    under. *)
Definition only_subscribers (subs m : list (string * list string)) : Prop :=
  ∀ name x, x ∈ values_at name m →
    ∃ uid user_items, (uid, user_items) ∈ subs ∧ x = mention uid ∧
                      Str.lower name ∈ Str.lower <$> user_items.

(** The warnings of [subscribe] and [unsubscribe] begin with a capital
    letter of the alphabet. *)
Definition plain_head (s : string) : Prop :=
  ∃ t, s = String "N" t ∨ s = String "A" t.

(** The callers [autoscrape] obeys: those who hold one of the roles of
    [ADMIN_ROLE_IDS], or the administrator permission. *)
Definition authorised (ADMIN_ROLE_IDS : list Z) (user : member_t) : Prop :=
  (∃ r, r ∈ role_ids user ∧ r ∈ ADMIN_ROLE_IDS) ∨ administrator user = true.

(** The state with the polling switch set. *)
Definition with_autoscrape (bot : bot_state) (enable : bool) : bot_state :=
  {| subscriptions := subscriptions bot;
     known_items := known_items bot;
     current_interval := current_interval bot;
     last_snapshot := last_snapshot bot;
     autoscrape_enabled := enable |}.

(** A guild [get_garden_channel] looks at. *)
Definition searched (guilds : list guild_t) (guild : option guild_t)
    (g : guild_t) : Prop :=
  guild = Some g ∨ g ∈ guilds.

(** The messages of a trace, with their channels, in the order they
    were sent. *)
Definition sends (t : list event) : list (Z * message) :=
  omap (λ e, match e with EvSend c m => Some (c, m) | _ => None end) t.

(** ** More sample inputs *)

Module MoreSamples.

Definition guild_a : guild_t :=
  mk_guild 1 [mk_channel 10 "general"; mk_channel 11 "growagarden"].
Definition guild_b : guild_t :=
  mk_guild 2 [mk_channel 20 "growagarden"; mk_channel 21 "growagarden"].
Definition guild_c : guild_t := mk_guild 3 [mk_channel 30 "general"].

Definition afternoon : datetime := mk_datetime 2025 6 15 14 57 30 250000.
Definition late : datetime := mk_datetime 2025 6 15 23 57 0 0.

(** A page whose eggs heading carries the classes of the selector. *)
Definition page_eggs : list Soup.node :=
  Samples.page [Samples.heading "EGGS STOCK";
                Soup.Tag "ul" [] [] [Samples.entry (Some "Common Egg") (Some "x1");
                                    Samples.entry_no_img "x2"]].

(** A page that lists seeds and then a gear entry without [alt]. *)
Definition page_seeds_then_bad : list Soup.node :=
  Samples.page [Samples.heading "SEEDS STOCK";
                Soup.Tag "ul" [] [] [Samples.entry (Some "Carrot Seed") (Some "x5")];
                Samples.heading "GEAR STOCK";
                Soup.Tag "ul" [] [] [Samples.entry (Some "Rake") (Some "x3");
                                    Samples.entry None (Some "x1")]].

Definition admin : member_t := mk_member [7; 8]%Z false.
Definition visitor : member_t := mk_member [9]%Z false.

End MoreSamples.
(** * Properties *)

(** ** The scheduler's grid *)

(** Case analysis on every integer test of the goal, keeping the
    arithmetic fact each branch stands for. *)
Ltac case_tests :=
  repeat match goal with
    | |- context [(?x <=? ?y)%Z] => destruct (Z.leb_spec x y)
    | |- context [(?x <? ?y)%Z] => destruct (Z.ltb_spec x y)
    | |- context [(?x >=? ?y)%Z] => rewrite (Z.geb_leb x y)
    | |- context [(?x =? ?y)%Z] => destruct (Z.eqb_spec x y)
    end.

Section NextScrapeTime.

Local Open Scope Z_scope.

Lemma dt_lt_spec (a b : datetime) :
  dt_lt a b ↔
    year a < year b ∨ (year a = year b ∧
    (month a < month b ∨ (month a = month b ∧
    (day a < day b ∨ (day a = day b ∧
    (hour a < hour b ∨ (hour a = hour b ∧
    (minute a < minute b ∨ (minute a = minute b ∧
    (second a < second b ∨ (second a = second b ∧
     microsecond a < microsecond b))))))))))).
Proof.
  unfold dt_lt, dt_ltb, fields; cbn [tuple_ltb].
  repeat match goal with
         | |- context [?x =? ?y] => destruct (Z.eqb_spec x y)
         end;
    rewrite ?Z.ltb_lt; try lia.
Qed.

Lemma calculate_next_scrape_time_minute (now : datetime) :
  valid now →
  minute (calculate_next_scrape_time now) =
    if minute now <? 56 then (minute now - 1) / 5 * 5 + 6 else 1.
Proof.
  intros (_ & Hm & _). unfold calculate_next_scrape_time.
  pose proof (Z.div_mod (minute now) 5 ltac:(lia)) as Hdm.
  pose proof (Z.mod_pos_bound (minute now) 5 ltac:(lia)) as Hb.
  pose proof (Z.div_mod (minute now - 1) 5 ltac:(lia)) as Hdm'.
  pose proof (Z.mod_pos_bound (minute now - 1) 5 ltac:(lia)) as Hb'.
  case_tests; cbn [minute replace]; lia.
Qed.

(** The result is always on the grid, whatever the hour. *)
Lemma calculate_next_scrape_time_aligned (now : datetime) :
  valid now →
  aligned (calculate_next_scrape_time now) ∧
  valid (calculate_next_scrape_time now).
Proof.
  intros Hv. pose proof (calculate_next_scrape_time_minute now Hv) as Hmin.
  destruct Hv as (Hh & Hm & Hs & Hu).
  assert (Hrest : second (calculate_next_scrape_time now) = 0 ∧
                  microsecond (calculate_next_scrape_time now) = 0 ∧
                  0 <= hour (calculate_next_scrape_time now) < 24).
  { unfold calculate_next_scrape_time.
    case_tests; cbn [second microsecond hour replace]; lia. }
  destruct Hrest as (Hs' & Hu' & Hh').
  pose proof (Z.div_mod (minute now - 1) 5 ltac:(lia)) as Hdm'.
  pose proof (Z.mod_pos_bound (minute now - 1) 5 ltac:(lia)) as Hb'.
  unfold aligned, valid. rewrite Hmin, Hs', Hu'.
  case_match.
  - replace ((minute now - 1) / 5 * 5 + 6) with (1 + ((minute now - 1) / 5 + 1) * 5) by lia.
    rewrite Z.mod_add by lia. repeat split; try lia; reflexivity.
  - repeat split; try lia; reflexivity.
Qed.

(** [replace] never touches the date: the result lies on the day of
    [now], also when the hour wrapped from 23 to 0. *)
Lemma calculate_next_scrape_time_same_date (now : datetime) :
  same_date (calculate_next_scrape_time now) now.
Proof.
  unfold calculate_next_scrape_time, same_date.
  case_tests; cbn; done.
Qed.

(** Away from the last grid point of the day the function is right: the
    result is the least grid point strictly after [now]. *)
Lemma calculate_next_scrape_time_before_2356 (now : datetime) :
  valid now →
  ¬ (hour now = 23 ∧ 56 <= minute now) →
  dt_lt now (calculate_next_scrape_time now) ∧
  ∀ t, valid t → aligned t → dt_lt now t → dt_le (calculate_next_scrape_time now) t.
Proof.
  intros Hv Hnot.
  pose proof (calculate_next_scrape_time_minute now Hv) as Hmin.
  pose proof (calculate_next_scrape_time_same_date now) as (Hy & Hmo & Hd).
  destruct (calculate_next_scrape_time_aligned now Hv) as ((_ & Hs & Hu) & _).
  assert (Hh : hour (calculate_next_scrape_time now) =
               if minute now <? 56 then hour now else hour now + 1).
  { destruct Hv as (Hh & Hm & _). unfold calculate_next_scrape_time.
    pose proof (Z.div_mod (minute now) 5 ltac:(lia)) as Hdm.
    pose proof (Z.mod_pos_bound (minute now) 5 ltac:(lia)) as Hb.
    case_tests; cbn [hour replace]; lia. }
  destruct Hv as (Hhr & Hm & Hsec & Hus).
  pose proof (Z.div_mod (minute now - 1) 5 ltac:(lia)) as Hdm'.
  pose proof (Z.mod_pos_bound (minute now - 1) 5 ltac:(lia)) as Hb'.
  split.
  - apply dt_lt_spec. rewrite Hy, Hmo, Hd, Hh, Hmin, Hs, Hu.
    case_match; lia.
  - intros t (Hth & Htm & Hts & Htu) (Hal & Hts0 & Htu0) Hlt.
    apply dt_lt_spec in Hlt.
    pose proof (Z.div_mod (minute t) 5 ltac:(lia)) as Htdm.
    destruct (decide (calculate_next_scrape_time now = t)) as [|Hne];
      [by left | right].
    apply dt_lt_spec. rewrite Hy, Hmo, Hd, Hh, Hmin, Hs, Hu.
    assert (Hfields : ¬ (year now = year t ∧ month now = month t ∧
               day now = day t ∧
               (if minute now <? 56 then hour now else hour now + 1) = hour t ∧
               (if minute now <? 56 then (minute now - 1) / 5 * 5 + 6 else 1)
                 = minute t)).
    { intros (E1 & E2 & E3 & E4 & E5). apply Hne.
      destruct (calculate_next_scrape_time now), t; cbn in *; congruence. }
    case_match; lia.
Qed.

(** The two daytime examples of the specification. *)
Example calculate_next_scrape_time_1403 :
  calculate_next_scrape_time (mk_datetime 2025 6 15 14 3 0 0)
    = mk_datetime 2025 6 15 14 6 0 0.
Proof. reflexivity. Qed.

Example calculate_next_scrape_time_145730 :
  calculate_next_scrape_time (mk_datetime 2025 6 15 14 57 30 0)
    = mk_datetime 2025 6 15 15 1 0 0.
Proof. reflexivity. Qed.

(** In the last four minutes of the day the hour wraps to 0 but the day
    does not advance, so the result is behind [now]. *)
Lemma calculate_next_scrape_time_after_2356 (now : datetime) :
  valid now →
  hour now = 23 → 56 <= minute now →
  calculate_next_scrape_time now = replace now 0 1 0 0 ∧
  dt_lt (calculate_next_scrape_time now) now.
Proof.
  intros (Hh & Hm & _) H23 H56.
  pose proof (Z.div_mod (minute now) 5 ltac:(lia)) as Hdm.
  pose proof (Z.mod_pos_bound (minute now) 5 ltac:(lia)) as Hb.
  assert (E : calculate_next_scrape_time now = replace now 0 1 0 0).
  { unfold calculate_next_scrape_time.
    case_tests; f_equal; lia. }
  split; [done |]. rewrite E. apply dt_lt_spec. cbn. lia.
Qed.

(** C1, at the input the specification itself names: one minute before
    midnight the code answers 00:01:00 of the same day, which is not
    after the time it was given but almost a day before it. *)
Theorem calculate_next_scrape_time_2359 :
  let now := mk_datetime 2025 6 15 23 59 0 0 in
  calculate_next_scrape_time now = mk_datetime 2025 6 15 0 1 0 0 ∧
  valid now ∧
  dt_lt (calculate_next_scrape_time now) now ∧
  ¬ dt_lt now (calculate_next_scrape_time now).
Proof. cbv zeta. vm_compute. intuition congruence. Qed.

End NextScrapeTime.


(** ** Dictionaries *)

Section DictFacts.
Context {V : Type}.
Implicit Types (d : list (string * V)) (k : string) (v : V).

Lemma dict_get_set k k' v d :
  Dict.get k' (Dict.set k v d) = if decide (k = k') then Some v else Dict.get k' d.
Proof.
  induction d as [|[k0 v0] d IH]; cbn.
  - repeat case_decide; congruence.
  - repeat (case_decide; cbn); try congruence.
Qed.

Lemma dict_get_None k d : Dict.get k d = None ↔ k ∉ Dict.keys d.
Proof.
  unfold Dict.keys. induction d as [|[k0 v0] d IH]; cbn.
  - split; [set_solver | done].
  - case_decide; subst.
    + split; [done | set_solver].
    + rewrite IH. set_solver.
Qed.

Lemma dict_get_Some_elem_of k v d : Dict.get k d = Some v → (k, v) ∈ d.
Proof.
  induction d as [|[k0 v0] d IH]; cbn; [done |].
  case_decide; subst.
  - intros [= ->]. left.
  - intros H1. right. auto.
Qed.

Lemma dict_elem_of_get k v d :
  NoDup (Dict.keys d) → (k, v) ∈ d → Dict.get k d = Some v.
Proof.
  unfold Dict.keys. induction d as [|[k0 v0] d IH]; cbn.
  - intros _ Hin. by apply elem_of_nil in Hin.
  - intros [Hnotin Hnd]%NoDup_cons [Heq | Hin]%elem_of_cons.
    + simplify_eq. by rewrite decide_True.
    + rewrite decide_False; [auto |].
      intros ->. apply Hnotin. apply list_elem_of_fmap. by exists (k, v).
Qed.

Lemma dict_keys_set k v d :
  Dict.keys (Dict.set k v d) =
    if decide (k ∈ Dict.keys d) then Dict.keys d else Dict.keys d ++ [k].
Proof.
  unfold Dict.keys. induction d as [|[k0 v0] d IH]; cbn.
  - rewrite decide_False; [done | set_solver].
  - destruct (decide (k0 = k)) as [->|Hne]; cbn.
    + rewrite decide_True; [done | set_solver].
    + rewrite IH. destruct (decide (k ∈ d.*1)).
      * rewrite decide_True; [done | set_solver].
      * rewrite decide_False; [done | set_solver].
Qed.

Lemma dict_NoDup_set k v d :
  NoDup (Dict.keys d) → NoDup (Dict.keys (Dict.set k v d)).
Proof.
  intros Hnd. rewrite dict_keys_set. case_decide; [done |].
  apply NoDup_app. repeat split; [done | set_solver | apply NoDup_singleton].
Qed.

Lemma dict_elem_of_set k v k' v' d :
  (k', v') ∈ Dict.set k v d → (k' = k ∧ v' = v) ∨ (k', v') ∈ d.
Proof.
  induction d as [|[k0 v0] d IH]; cbn.
  - intros Hin%list_elem_of_singleton. simplify_eq. by left.
  - case_decide; subst.
    + intros [Heq | Hin]%elem_of_cons; [simplify_eq; by left |].
      right. by right.
    + intros [Heq | Hin]%elem_of_cons; [right; rewrite Heq; left |].
      destruct (IH Hin) as [? | ?]; [by left | right; by right].
Qed.
End DictFacts.

Lemma all_items_append (P : item → Prop) cat it data :
  all_items P data → P it → all_items P (Dict.append cat it data).
Proof.
  intros Hall HP c items x Hin Hx. unfold Dict.append in Hin.
  apply dict_elem_of_set in Hin as [[-> ->] | Hin]; [| by eapply Hall].
  apply elem_of_app in Hx as [Hx | ->%list_elem_of_singleton]; [| done].
  destruct (Dict.get cat data) as [vs|] eqn:Hget; cbn in Hx.
  - eapply Hall; [by apply dict_get_Some_elem_of |done].
  - by apply elem_of_nil in Hx.
Qed.

Lemma well_formed_append cat (it : item) data :
  well_formed data → well_formed (Dict.append cat it data).
Proof.
  intros [Hnd Hne]. split; [by apply dict_NoDup_set |].
  intros c items Hin. unfold Dict.append in Hin.
  apply dict_elem_of_set in Hin as [[-> ->] | Hin]; [| by eapply Hne].
  by destruct (default [] (Dict.get cat data)).
Qed.

(** ** Parser *)

Section Parser.
Import Soup.


Lemma dedicated_item_Some li it :
  dedicated_item li = Some it → from_entry it.
Proof.
  unfold dedicated_item, from_entry.
  destruct (find "img" li) as [img|] eqn:Himg; [| done].
  destruct (find_class "span" "text-gray-400" li) as [span|] eqn:Hspan; [| done].
  intros [= <-]. by exists li, img, span.
Qed.


Lemma generic_item_Some li it :
  generic_item li = Ok (Some it) → from_entry it.
Proof.
  unfold generic_item, from_entry.
  destruct (find "img" li) as [img|] eqn:Himg; [| done].
  destruct (find_class "span" "text-gray-400" li) as [span|] eqn:Hspan; [| done].
  destruct (getitem "alt" img) as [alt|] eqn:Halt; [| done].
  intros [= <-]. exists li, img, span. repeat split; [done.. |].
  unfold get, getitem in *. destruct (img.1); [done |]. by rewrite Halt.
Qed.

Lemma extracted_append cat data it :
  extracted data → from_entry it → extracted (Dict.append cat it data).
Proof.
  intros [? ?] ?. split; [by apply all_items_append | by apply well_formed_append].
Qed.

Lemma extracted_empty : extracted [].
Proof.
  split; [| split; [apply NoDup_nil_2 |]].
  - intros cat items it Hin. by apply elem_of_nil in Hin.
  - intros cat items Hin. by apply elem_of_nil in Hin.
Qed.

Lemma dedicated_section_extracted label soup data :
  extracted data → extracted (dedicated_section label soup data).
Proof.
  unfold dedicated_section. intros Hdata.
  destruct (find_string "h2" label soup) as [header|]; [| done].
  destruct (find_next_sibling "ul" header) as [ul|]; [| done].
  revert data Hdata.
  induction (find_all "li" "bg-gray-900" ul) as [|li lis IH]; intros data Hdata;
    [done |].
  cbn. apply IH. destruct (dedicated_item li) as [it|] eqn:Hit; cbn; [| done].
  apply extracted_append; [done | by eapply dedicated_item_Some].
Qed.

Lemma for_each_invariant {A B} (I : A → Prop) (body : A → B → result A) l :
  (∀ acc x acc', I acc → body acc x = Ok acc' → I acc') →
  ∀ acc acc', I acc → for_each body acc l = Ok acc' → I acc'.
Proof.
  intros Hbody. induction l as [|x l IH]; intros acc acc' Hacc; cbn.
  - by intros [= <-].
  - destruct (body acc x) as [acc1|e] eqn:Hb; cbn; [| done].
    apply IH. by eapply Hbody.
Qed.

Lemma generic_sections_extracted soup data data' :
  extracted data → generic_sections soup data = Ok data' → extracted data'.
Proof.
  unfold generic_sections. apply for_each_invariant.
  intros acc h2 acc' Hacc. case_decide; [by intros [= <-] |].
  destruct (find_next_sibling "ul" h2) as [ul|]; [| by intros [= <-]].
  revert Hacc. apply for_each_invariant. clear acc acc'.
  intros acc li acc' Hacc. destruct (generic_item li) as [[it|]|e] eqn:Hit; cbn;
    [| by intros [= <-] | done].
  intros [= <-]. apply extracted_append; [done | by eapply generic_item_Some].
Qed.

Lemma parse_stock_extracted soup data :
  parse_stock soup = Ok data → extracted data.
Proof.
  unfold parse_stock.
  destruct (generic_sections soup _) as [d|e] eqn:Hg; cbn; [| done].
  intros [= <-]. apply dedicated_section_extracted.
  eapply generic_sections_extracted; [| done].
  apply dedicated_section_extracted, extracted_empty.
Qed.

Lemma scrape_garden_stock_extracted resp data err :
  scrape_garden_stock resp = (Some data, err) → err = None ∧ extracted data.
Proof.
  unfold scrape_garden_stock. destruct resp as [| |status body]; [done.. |].
  repeat case_decide; [done.. |].
  destruct (parse_stock body) as [d|e] eqn:Hp; [| done].
  intros [= <- <-]. split; [done | by eapply parse_stock_extracted].
Qed.







End Parser.

(** ** Retry coordinator *)

Section Retries.

Lemma retry_loop_eq max_attempts delay attempts error w :
  retry_loop max_attempts delay attempts error w =
    if decide (attempts < max_attempts)%Z then
      match await_scrape w with
      | ((Some stock, _), w1) => ((Some stock, None), w1)
      | ((None, err), w1) =>
          retry_loop max_attempts delay (attempts + 1) err
            (if decide (attempts + 1 < max_attempts)%Z
             then await_sleep delay w1 else w1)
      end
    else ((None, error), w).
Proof.
  simp retry_loop. destruct (decide (attempts < max_attempts)%Z); cbn; [| done].
  by destruct (scrape_garden_stock (network w (fetched w))) as [[stock|] err].
Qed.

Lemma outcome_shift (w w1 : world) j :
  network w1 = network w → fetched w1 = S (fetched w) →
  outcome w1 j = outcome w (S j).
Proof.
  intros Hn Hf. unfold outcome. rewrite Hn, Hf. f_equal. f_equal. lia.
Qed.

(** The first success ends the loop at once. *)
Lemma retry_loop_success k :
  ∀ max_attempts delay attempts error w stock,
    (attempts + Z.of_nat k < max_attempts)%Z →
    (∀ j, j < k → (outcome w j).1 = None) →
    (outcome w k).1 = Some stock →
    retry_loop max_attempts delay attempts error w =
      ((Some stock, None), after_attempts delay w k).
Proof.
  induction k as [|k IH]; intros max_attempts delay attempts error w stock Hlt Hfail Hok;
    rewrite retry_loop_eq, decide_True by lia; unfold await_scrape.
  - unfold outcome in Hok. rewrite Nat.add_0_r in Hok.
    destruct (scrape_garden_stock _) as [[s|] e]; cbn in Hok; simplify_eq.
    unfold after_attempts. do 2 f_equal. lia.
  - pose proof (Hfail 0 ltac:(lia)) as H0. unfold outcome in H0.
    rewrite Nat.add_0_r in H0.
    destruct (scrape_garden_stock _) as [[s|] e]; cbn in H0; simplify_eq.
    rewrite decide_True by lia.
    erewrite IH; [| lia | |].
    + unfold after_attempts, await_sleep; cbn. do 2 f_equal; [lia |].
      by rewrite <- !app_assoc.
    + intros j Hj. rewrite (outcome_shift w) by done. apply Hfail. lia.
    + by rewrite (outcome_shift w).
Qed.

(** When every attempt fails the loop stops after the last of them,
    without a sleep, with the error of that attempt. *)
Lemma retry_loop_exhausted n :
  ∀ max_attempts delay attempts error w,
    (attempts + Z.of_nat (S n) = max_attempts)%Z →
    (∀ j, j ≤ n → (outcome w j).1 = None) →
    retry_loop max_attempts delay attempts error w =
      ((None, (outcome w n).2), after_attempts delay w n).
Proof.
  induction n as [|n IH]; intros max_attempts delay attempts error w Hmax Hfail;
    rewrite retry_loop_eq, decide_True by lia; unfold await_scrape;
    pose proof (Hfail 0 ltac:(lia)) as H0; unfold outcome in H0 |- *;
    rewrite Nat.add_0_r in *;
    destruct (scrape_garden_stock (network w (fetched w))) as [[s|] e] eqn:Hres;
    cbn in H0; simplify_eq.
  - rewrite decide_False by lia.
    rewrite retry_loop_eq, decide_False by lia.
    unfold after_attempts. cbn. do 2 f_equal. lia.
  - rewrite decide_True by lia.
    erewrite IH; [| lia |].
    + unfold outcome, after_attempts, await_sleep; cbn.
      rewrite <- !app_assoc, <- !Nat.add_succ_r. reflexivity.
    + intros j Hj. rewrite (outcome_shift w) by done. apply Hfail. lia.
Qed.

Lemma scrape_with_retries_success (w : world) k stock :
  k < 3 →
  (∀ j, j < k → (outcome w j).1 = None) →
  (outcome w k).1 = Some stock →
  scrape_with_retries 3 4 w = ((Some stock, None), after_attempts 4 w k).
Proof. intros Hk Hfail Hok. apply retry_loop_success; [lia | done..]. Qed.

Lemma scrape_with_retries_exhausted (w : world) :
  (∀ j, j < 3 → (outcome w j).1 = None) →
  scrape_with_retries 3 4 w = ((None, (outcome w 2).2), after_attempts 4 w 2).
Proof.
  intros Hfail. apply retry_loop_exhausted; [lia |].
  intros j Hj. apply Hfail. lia.
Qed.

(** With the default arguments: which attempt decides. *)
Lemma scrape_with_retries_cases (w : world) :
  (∃ k stock, k < 3 ∧ (∀ j, j < k → (outcome w j).1 = None) ∧
              (outcome w k).1 = Some stock ∧
              scrape_with_retries 3 4 w = ((Some stock, None), after_attempts 4 w k)) ∨
  ((∀ j, j < 3 → (outcome w j).1 = None) ∧
   scrape_with_retries 3 4 w = ((None, (outcome w 2).2), after_attempts 4 w 2)).
Proof.
  unfold scrape_with_retries.
  destruct ((outcome w 0).1) as [s0|] eqn:H0.
  { left. exists 0, s0. repeat split; [lia | intros; lia | done |].
    apply retry_loop_success; [lia | intros; lia | done]. }
  destruct ((outcome w 1).1) as [s1|] eqn:H1.
  { left. exists 1, s1.
    assert (∀ j, j < 1 → (outcome w j).1 = None)
      by (intros j Hj; by replace j with 0 by lia).
    repeat split; [lia | done.. |]. apply retry_loop_success; [lia | done..]. }
  destruct ((outcome w 2).1) as [s2|] eqn:H2.
  { left. exists 2, s2.
    assert (∀ j, j < 2 → (outcome w j).1 = None).
    { intros j Hj. destruct j as [|[|j]]; [done.. | lia]. }
    repeat split; [lia | done.. |]. apply retry_loop_success; [lia | done..]. }
  right.
  assert (∀ j, j < 3 → (outcome w j).1 = None).
  { intros j Hj. destruct j as [|[|[|j]]]; [done.. | lia]. }
  split; [done |]. apply retry_loop_exhausted; [lia |].
  intros j Hj. apply H. lia.
Qed.

(** C4.  [scrape_with_retries(3, 4)] fetches at most three times.  If
    attempt [k] is the first to succeed, its stock is returned after
    exactly [k + 1] fetches, with a 4 second sleep after each of the
    [k] failures and nothing after the success.  If all three fail, the
    error of the third is returned after exactly three fetches and two
    sleeps, none after the last attempt. *)
Theorem scrape_with_retries_spec (w : world) :
  fetched (scrape_with_retries 3 4 w).2 ≤ fetched w + 3 ∧
  (∀ k stock, k < 3 →
     (∀ j, j < k → (outcome w j).1 = None) →
     (outcome w k).1 = Some stock →
     scrape_with_retries 3 4 w = ((Some stock, None), after_attempts 4 w k)) ∧
  ((∀ j, j < 3 → (outcome w j).1 = None) →
     scrape_with_retries 3 4 w =
       ((None, (outcome w 2).2), after_attempts 4 w 2)).
Proof.
  split; [| split].
  - destruct (scrape_with_retries_cases w) as [(k & stock & Hk & _ & _ & ->) | [_ ->]];
      cbn; lia.
  - apply scrape_with_retries_success.
  - apply scrape_with_retries_exhausted.
Qed.

Lemma scrape_with_retries_spec_witness :
  scrape_with_retries 3 4 (mk_world Samples.net_third_time 0 []) =
    ((Some [("SEEDS STOCK", [("Carrot Seed", "x5")]);
            ("GEAR STOCK", [("Rake", "x3")])], None),
     mk_world Samples.net_third_time 3
       [EvScrape; EvSleep 4; EvScrape; EvSleep 4; EvScrape]) ∧
  scrape_with_retries 3 4 (mk_world Samples.net_down 0 []) =
    ((None, Some "Cloudflare 520 Error"),
     mk_world Samples.net_down 3
       [EvScrape; EvSleep 4; EvScrape; EvSleep 4; EvScrape]).
Proof.
  split.
  - apply (proj1 (proj2 (scrape_with_retries_spec
                           (mk_world Samples.net_third_time 0 []))) 2).
    + lia.
    + intros [|[|j]] Hj; [reflexivity.. | lia].
    + reflexivity.
  - apply (proj2 (proj2 (scrape_with_retries_spec
                           (mk_world Samples.net_down 0 [])))).
    intros [|[|[|j]]] Hj; [reflexivity.. | lia].
Defined.

End Retries.

(** ** Differ and matcher *)

Section Differ.

Implicit Types (subs : list (string * list string)).
Implicit Types (last : gmap string (list item)) (stock : stock_t).

Lemma foldl_ext_in {A B : Type} (f g : A → B → A) (l : list B) :
  (∀ a x, x ∈ l → f a x = g a x) → ∀ a, foldl f a l = foldl g a l.
Proof.
  induction l as [|x l IH]; intros Hfg a; [done |]. cbn.
  rewrite Hfg by left. apply IH. intros a' y Hy. apply Hfg. by right.
Qed.


Lemma category_changed_spec last cat items :
  items ≠ [] → category_changed last cat items = true ↔ notifies last cat items.
Proof.
  intros Hne. unfold category_changed, notifies.
  rewrite orb_true_iff, !bool_decide_eq_true.
  destruct (last !! cat) as [prev|]; cbn; naive_solver.
Qed.

Lemma mention_items_nil subs m : mention_items subs [] m = m.
Proof. done. Qed.

Lemma category_changed_mentions last cat items subs m :
  (if category_changed last cat items then mention_items subs items m else m) =
  (if decide (notifies last cat items) then mention_items subs items m else m).
Proof.
  destruct (decide (items = [])) as [-> | Hne].
  - by repeat case_match.
  - pose proof (category_changed_spec last cat items Hne) as Hspec.
    destruct (category_changed last cat items); case_decide; naive_solver.
Qed.

Lemma loop_last_foldl subs stock st :
  loop_last (foldl (build_embed_step subs) st stock) = overwrite stock (loop_last st).
Proof.
  revert st. induction stock as [|[cat items] stock IH]; intros st; [done |].
  cbn. by rewrite IH.
Qed.

Lemma overwrite_cons cat items stock last :
  overwrite ((cat, items) :: stock) last = overwrite stock (<[cat := items]> last).
Proof. done. Qed.

Lemma lookup_overwrite_notin stock last cat :
  cat ∉ Dict.keys stock → overwrite stock last !! cat = last !! cat.
Proof.
  unfold Dict.keys. revert last.
  induction stock as [|[c items] stock IH]; intros last Hnotin; [done |].
  rewrite overwrite_cons, IH by set_solver. apply lookup_insert_ne. set_solver.
Qed.

Lemma lookup_overwrite stock last cat :
  NoDup (Dict.keys stock) →
  overwrite stock last !! cat =
    match Dict.get cat stock with
    | Some items => Some items
    | None => last !! cat
    end.
Proof.
  unfold Dict.keys. revert last.
  induction stock as [|[c items] stock IH]; intros last Hnd; [done |].
  rewrite fmap_cons in Hnd. apply NoDup_cons in Hnd as [Hnotin Hnd].
  rewrite overwrite_cons. cbn [Dict.get]. case_decide; subst.
  - rewrite lookup_overwrite_notin by done. apply lookup_insert_eq.
  - rewrite IH by done.
    destruct (Dict.get cat stock); [done |]. by apply lookup_insert_ne.
Qed.

Lemma notifies_insert_ne last cat items c its :
  c ≠ cat → notifies (<[cat := items]> last) c its ↔ notifies last c its.
Proof. intros Hne. unfold notifies. by rewrite lookup_insert_ne. Qed.

Lemma loop_mentions_foldl subs stock :
  NoDup (Dict.keys stock) → ∀ st,
  loop_mentions (foldl (build_embed_step subs) st stock) =
    foldl (λ m e, if decide (notifies (loop_last st) e.1 e.2)
                  then mention_items subs e.2 m else m)
          (loop_mentions st) stock.
Proof.
  unfold Dict.keys.
  induction stock as [|[cat items] stock IH]; intros Hnd st; [done |].
  cbn in Hnd. apply NoDup_cons in Hnd as [Hnotin Hnd].
  cbn. rewrite IH by done. cbn. rewrite category_changed_mentions.
  apply foldl_ext_in. intros m [c its] Hin. cbn.
  assert (c ≠ cat).
  { intros ->. apply Hnotin. apply list_elem_of_fmap. by exists (cat, its). }
  pose proof (notifies_insert_ne (loop_last st) cat items c its H) as Hiff.
  repeat case_decide; naive_solver.
Qed.

Lemma mention_items_names subs items m :
  mention_items subs items m =
    foldl (λ m name, mention_subscribers subs name m) m (items.*1).
Proof.
  unfold mention_items. revert m.
  induction items as [|[name q] items IH]; intros m; [done |]. cbn. apply IH.
Qed.

Lemma mentions_evaluated_names subs last stock m :
  foldl (λ m e, if decide (notifies last e.1 e.2)
                then mention_items subs e.2 m else m) m stock =
  foldl (λ m name, mention_subscribers subs name m) m (evaluated_names last stock).
Proof.
  unfold evaluated_names. revert m.
  induction stock as [|[cat items] stock IH]; intros m; [done |].
  cbn. rewrite foldl_app, <- IH. case_decide; [| done].
  f_equal. apply (mention_items_names subs items m).
Qed.



(** *** Mentions are appended once per occurrence *)

Lemma dict_get_append {A : Type} k k' (x : A) (d : list (string * list A)) :
  Dict.get k (Dict.append k' x d) =
    if decide (k' = k) then Some (default [] (Dict.get k d) ++ [x]) else Dict.get k d.
Proof. unfold Dict.append. rewrite dict_get_set. by case_decide; subst. Qed.

Lemma mention_subscribers_at subs name' name m :
  values_at name (mention_subscribers subs name' m) =
    values_at name m ++
    (if decide (name' = name) then mention <$> subscribers_of subs name' else []).
Proof.
  unfold mention_subscribers, subscribers_of. revert m.
  induction subs as [|[uid user_items] subs IH]; intros m.
  - cbn. case_decide; by rewrite app_nil_r.
  - rewrite filter_cons. cbn [foldl fst snd]. rewrite IH. clear IH.
    unfold values_at. cbn [snd].
    case_bool_decide as Hmatch;
      destruct (decide (Str.lower name' ∈ Str.lower <$> user_items)); try done.
    rewrite dict_get_append.
    case_decide; cbn; [by rewrite <- app_assoc | done].
Qed.

Lemma occurrences_cons {A : Type} `{EqDecision A} (x y : A) l :
  occurrences x (y :: l) = (if decide (y = x) then 1 else 0) + occurrences x l.
Proof. unfold occurrences. rewrite filter_cons. by case_decide. Qed.

Lemma occurrences_app {A : Type} `{EqDecision A} (x : A) l1 l2 :
  occurrences x (l1 ++ l2) = occurrences x l1 + occurrences x l2.
Proof. unfold occurrences. by rewrite filter_app, length_app. Qed.

Lemma occurrences_concat_replicate {A : Type} `{EqDecision A} (x : A) k l :
  occurrences x (concat (replicate k l)) = k * occurrences x l.
Proof.
  induction k as [|k IH]; [done |].
  cbn [replicate concat]. rewrite occurrences_app, IH. lia.
Qed.

Lemma occurrences_fmap_inj {A B : Type} `{EqDecision A, EqDecision B}
    (f : A → B) `{!Inj (=) (=) f} (x : A) l :
  occurrences (f x) (f <$> l) = occurrences x l.
Proof.
  induction l as [|y l IH]; [done |]. rewrite fmap_cons, !occurrences_cons, IH.
  repeat case_decide; naive_solver.
Qed.

Lemma occurrences_notin {A : Type} `{EqDecision A} (x : A) l :
  x ∉ l → occurrences x l = 0.
Proof.
  induction l as [|y l IH]; [done |]. intros Hnotin.
  rewrite occurrences_cons, IH by set_solver. rewrite decide_False; set_solver.
Qed.

Lemma occurrences_NoDup {A : Type} `{EqDecision A} (x : A) l :
  NoDup l → x ∈ l → occurrences x l = 1.
Proof.
  induction l as [|y l IH]; intros Hnd Hin; [by apply elem_of_nil in Hin |].
  apply NoDup_cons in Hnd as [Hnotin Hnd]. rewrite occurrences_cons.
  destruct (decide (y = x)) as [-> | Hne].
  - by rewrite occurrences_notin.
  - rewrite IH; [done.. |]. set_solver.
Qed.

Lemma names_at subs name names m :
  values_at name (foldl (λ m n, mention_subscribers subs n m) m names) =
    values_at name m ++
    concat (replicate (occurrences name names) (mention <$> subscribers_of subs name)).
Proof.
  revert m. induction names as [|n names IH]; intros m.
  - cbn. by rewrite app_nil_r.
  - cbn [foldl]. rewrite IH, mention_subscribers_at, occurrences_cons, <- app_assoc.
    by case_decide; subst.
Qed.

Lemma append_gt_inj (s1 s2 : string) : s1 +:+ ">" = s2 +:+ ">" → s1 = s2.
Proof.
  revert s2. induction s1 as [|c s1 IH]; intros [|c' s2]; cbn; intros Heq;
    simplify_eq; [done | by destruct s2 | by destruct s1 |].
  f_equal. by apply IH.
Qed.

Lemma mention_inj : Inj (=) (=) mention.
Proof. intros u u' Heq. unfold mention in Heq. cbn in Heq. simplify_eq. by apply append_gt_inj. Qed.

Lemma subscribers_of_NoDup subs name :
  NoDup (Dict.keys subs) → NoDup (subscribers_of subs name).
Proof.
  intros Hnd. eapply sublist_NoDup; [exact Hnd |].
  unfold subscribers_of, Dict.keys. apply fmap_sublist, sublist_filter.
Qed.

Lemma elem_of_subscribers_of subs name uid user_items :
  Dict.get uid subs = Some user_items →
  Str.lower name ∈ Str.lower <$> user_items →
  uid ∈ subscribers_of subs name.
Proof.
  intros Hget Hin. unfold subscribers_of. apply list_elem_of_fmap.
  exists (uid, user_items). split; [done |].
  apply list_elem_of_filter. split; [done | by apply dict_get_Some_elem_of].
Qed.

(** C10.  Under an item's key the mentions of its subscribers are
    repeated once for every occurrence of the name in the categories
    that notify, in order and without any deduplication; so a user who
    subscribes to an item listed [k] times in those categories is
    mentioned [k] times under it. *)
Theorem build_embed_repeats_mentions (bot : bot_state) stock (now : datetime)
    (name uid : string) (user_items : list string) :
  NoDup (Dict.keys stock) →
  NoDup (Dict.keys (subscriptions bot)) →
  Dict.get uid (subscriptions bot) = Some user_items →
  Str.lower name ∈ Str.lower <$> user_items →
  let k := occurrences name (evaluated_names (last_snapshot bot) stock) in
  let users := values_at name (build_embed stock now bot).1.2 in
  users = concat (replicate k (mention <$> subscribers_of (subscriptions bot) name)) ∧
  occurrences (mention uid) users = k.
Proof.
  intros Hstock Hsubs Hget Hin k users.
  assert (Husers : users =
    concat (replicate k (mention <$> subscribers_of (subscriptions bot) name))).
  { unfold users, build_embed. cbn [fst snd].
    rewrite loop_mentions_foldl by done. cbn [loop_mentions loop_last].
    by rewrite mentions_evaluated_names, names_at. }
  split; [done |].
  rewrite Husers, occurrences_concat_replicate.
  rewrite (occurrences_fmap_inj mention (Inj0 := mention_inj)).
  rewrite occurrences_NoDup; [lia | by apply subscribers_of_NoDup |].
  by eapply elem_of_subscribers_of.
Qed.

Lemma build_embed_repeats_mentions_witness :
  values_at "Rake" (build_embed Samples.stock1 Samples.noon Samples.bot0).1.2 =
    ["<@42>"; "<@7>"; "<@42>"; "<@7>"] ∧
  occurrences "<@7>"
    (values_at "Rake" (build_embed Samples.stock1 Samples.noon Samples.bot0).1.2) = 2.
Proof.
  destruct (build_embed_repeats_mentions Samples.bot0 Samples.stock1 Samples.noon
              "Rake" "7" ["RAKE"]) as [Husers Hcount].
  - apply (bool_decide_unpack _). vm_compute. exact I.
  - apply (bool_decide_unpack _). vm_compute. exact I.
  - reflexivity.
  - apply (bool_decide_unpack _). vm_compute. exact I.
  - split.
    + refine (eq_trans Husers _). vm_compute. reflexivity.
    + refine (eq_trans Hcount _). vm_compute. reflexivity.
Defined.

End Differ.

(** ** One poll *)

Section Poll.

Lemma scrape_with_retries_well_formed w stock err :
  (scrape_with_retries 3 4 w).1 = (Some stock, err) →
  err = None ∧ well_formed stock.
Proof.
  destruct (scrape_with_retries_cases w) as [(k & s & _ & _ & Hok & ->) | [_ ->]];
    cbn; [| done].
  intros [= -> <-]. split; [done |]. unfold outcome in Hok.
  destruct (scrape_garden_stock _) as [o e] eqn:Hres. cbn in Hok. subst o.
  by apply scrape_garden_stock_extracted in Hres as (_ & _ & Hwf).
Qed.

Lemma publish_state stock now ch bot w :
  known_items (publish stock now ch bot w).1 = item_names stock ∧
  last_snapshot (publish stock now ch bot w).1 = overwrite stock (last_snapshot bot) ∧
  subscriptions (publish stock now ch bot w).1 = subscriptions bot.
Proof.
  unfold publish, build_embed. cbn. by rewrite loop_last_foldl.
Qed.

(** C2, as the code has it.  After a poll whose scrape succeeded and
    whose channel was found, [bot.known_items] is exactly the names of
    the new stock, while [bot.last_snapshot] holds the new list for
    every category of the new stock and still holds its old entry for
    every category the new stock does not list. *)
Theorem polling_loop_last_snapshot (OWNER_ID : string) (now : datetime) (ch : Z)
    (bot : bot_state) (w : world) (stock : stock_t) (err : option string) :
  (scrape_with_retries 3 4 w).1 = (Some stock, err) →
  known_items (polling_loop_iteration OWNER_ID now (Some ch) bot w).1 = item_names stock ∧
  ∀ cat, last_snapshot (polling_loop_iteration OWNER_ID now (Some ch) bot w).1 !! cat =
           match Dict.get cat stock with
           | Some items => Some items
           | None => last_snapshot bot !! cat
           end.
Proof.
  intros Hres. destruct (scrape_with_retries_well_formed _ _ _ Hres) as (_ & Hnd & _).
  unfold polling_loop_iteration. destruct (scrape_with_retries 3 4 w) as [[s e] w1].
  cbn in Hres. simplify_eq.
  destruct (publish_state stock now ch bot w1) as (Hk & Hl & _).
  split; [done |]. intros cat. rewrite Hl. by apply lookup_overwrite.
Qed.

Lemma polling_loop_last_snapshot_witness :
  known_items (polling_loop_iteration "" Samples.noon (Some 5%Z) Samples.bot0
                 Samples.world_third_time).1 = {["Carrot Seed"; "Rake"]} ∧
  last_snapshot (polling_loop_iteration "" Samples.noon (Some 5%Z) Samples.bot0
                   Samples.world_third_time).1 !! "GEAR STOCK"
    = Some [("Rake", "x3")].
Proof.
  destruct (polling_loop_last_snapshot "" Samples.noon 5 Samples.bot0
              Samples.world_third_time Samples.stock_ok None) as [Hknown Hlast].
  - vm_compute. reflexivity.
  - split.
    + refine (eq_trans Hknown _). apply (bool_decide_unpack _). vm_compute. exact I.
    + refine (eq_trans (Hlast "GEAR STOCK") _). reflexivity.
Defined.

(** C2 as stated fails: the scrape returns a stock without the category
    HONEY STOCK, and the snapshot retained after the poll still has the
    HONEY STOCK entry of the snapshot before, so it is not the new
    snapshot. *)
Lemma polling_loop_merges_counterexample :
  (scrape_with_retries 3 4 Samples.world_third_time).1
    = (Some Samples.stock_ok, None) ∧
  Dict.get "HONEY STOCK" Samples.stock_ok = None ∧
  last_snapshot (polling_loop_iteration "" Samples.noon (Some 5%Z) Samples.bot0
                   Samples.world_third_time).1 !! "HONEY STOCK"
    = Some [("Honey", "x1")] ∧
  last_snapshot (polling_loop_iteration "" Samples.noon (Some 5%Z) Samples.bot0
                   Samples.world_third_time).1
    ≠ list_to_map Samples.stock_ok.
Proof.
  assert (Hhoney :
    last_snapshot (polling_loop_iteration "" Samples.noon (Some 5%Z) Samples.bot0
                     Samples.world_third_time).1 !! "HONEY STOCK"
      = Some [("Honey", "x1")]) by (vm_compute; reflexivity).
  split; [vm_compute; reflexivity |]. split; [vm_compute; reflexivity |].
  split; [exact Hhoney |].
  intros Heq. rewrite Heq in Hhoney. vm_compute in Hhoney. discriminate.
Qed.

(** C7.  When all three attempts fail the poll leaves [bot] as it was,
    so neither [last_snapshot] nor [known_items] changes; and when the
    channel is found the one message sent after the attempts is the
    critical error, which names the last error and opens with the
    mention of [OWNER_ID], or with the literal [@jaymaca] when
    [OWNER_ID] is empty. *)
Theorem polling_loop_exhausted (OWNER_ID : string) (now : datetime)
    (channel : option Z) (bot : bot_state) (w : world) :
  (∀ j, j < 3 → (outcome w j).1 = None) →
  (polling_loop_iteration OWNER_ID now channel bot w).1 = bot ∧
  ∀ ch, channel = Some ch →
    trace (polling_loop_iteration OWNER_ID now channel bot w).2 =
      trace w ++ attempts_trace 4 2 ++
      [EvSend ch (Text
         ((if decide (OWNER_ID = "") then "@jaymaca"
           else "<@" +:+ OWNER_ID +:+ ">")
          +:+ " ⚠️ **CRITICAL ERROR**" +:+ nl
          +:+ "All scrape attempts failed! Last error: "
          +:+ default "None" (outcome w 2).2))].
Proof.
  intros Hfail. unfold polling_loop_iteration.
  rewrite (scrape_with_retries_exhausted w Hfail).
  destruct channel as [ch|]; cbn [fst snd]; (split; [done |]); [| done].
  intros ch' [= <-]. cbn. rewrite <- app_assoc. do 4 f_equal.
  unfold mention. by repeat case_decide.
Qed.

Lemma polling_loop_exhausted_witness :
  (polling_loop_iteration "99" Samples.noon (Some 5%Z) Samples.bot0 Samples.world_down).1
    = Samples.bot0 ∧
  trace (polling_loop_iteration "99" Samples.noon (Some 5%Z) Samples.bot0 Samples.world_down).2 =
    [EvScrape; EvSleep 4; EvScrape; EvSleep 4; EvScrape;
     EvSend 5 (Text ("<@99> ⚠️ **CRITICAL ERROR**" +:+ nl +:+
                     "All scrape attempts failed! Last error: Cloudflare 520 Error"))].
Proof.
  destruct (polling_loop_exhausted "99" Samples.noon (Some 5%Z) Samples.bot0
              Samples.world_down) as [Hbot Htrace].
  - intros [|[|[|j]]] Hj; [reflexivity.. | lia].
  - split; [exact Hbot |]. exact (Htrace 5%Z eq_refl).
Defined.

End Poll.

(** ** Subscriptions *)

Section SubscribeFacts.

Variable ratio : string → string → Q.

Implicit Types (known : gset string) (st : sub_loop) (raw want : string).

Lemma scored_lt_true a b : scored_lt a b = true → (a.1 <= b.1)%Q.
Proof.
  unfold scored_lt. destruct (Qcompare_spec a.1 b.1) as [Heq | Hlt | Hgt]; [| | done].
  - intros _. rewrite Heq. apply Qle_refl.
  - intros _. by apply Qlt_le_weak.
Qed.

Lemma scored_lt_false a b : scored_lt a b = false → (b.1 <= a.1)%Q.
Proof.
  unfold scored_lt. destruct (Qcompare_spec a.1 b.1) as [Heq | Hlt | Hgt]; [| done |].
  - intros _. rewrite Heq. apply Qle_refl.
  - intros _. by apply Qlt_le_weak.
Qed.

(** The running maximum of [max]: it is the start value or an element
    seen since, and nothing seen scores higher. *)
Lemma max_fold_spec (l : list (Q * string)) : ∀ x,
  let best := foldl (λ best y, if scored_lt best y then y else best) x l in
  (best = x ∨ best ∈ l) ∧ (x.1 <= best.1)%Q ∧ ∀ y, y ∈ l → (y.1 <= best.1)%Q.
Proof.
  induction l as [|z l IH]; intros x; cbn.
  - split; [by left |]. split; [apply Qle_refl |].
    intros y Hy. by apply elem_of_nil in Hy.
  - destruct (scored_lt x z) eqn:Hlt.
    + destruct (IH z) as (Hin & Hle & Hall). split; [| split].
      * right. destruct Hin as [-> | Hin]; [left | by right].
      * eapply Qle_trans; [by apply scored_lt_true | done].
      * intros y [-> | Hy]%elem_of_cons; [done | by apply Hall].
    + destruct (IH x) as (Hin & Hle & Hall). split; [| split].
      * destruct Hin as [-> | Hin]; [by left | right; by right].
      * done.
      * intros y [-> | Hy]%elem_of_cons; [| by apply Hall].
        eapply Qle_trans; [by apply scored_lt_false | done].
Qed.

Lemma max_scored_spec (l : list (Q * string)) best :
  max_scored l = Some best → best ∈ l ∧ ∀ y, y ∈ l → (y.1 <= best.1)%Q.
Proof.
  destruct l as [|x l]; [done |]. cbn. intros [= <-].
  destruct (max_fold_spec l x) as (Hin & Hle & Hall). split.
  - destruct Hin as [-> | Hin]; [left | by right].
  - intros y [-> | Hy]%elem_of_cons; [done | by apply Hall].
Qed.

(** What [get_close_matches] returns with [n=1]: nothing when no
    candidate reaches the cutoff, and otherwise one candidate that
    reaches it and that no candidate outscores. *)
Lemma get_close_matches_spec want known (cutoff : Q) :
  (get_close_matches ratio want known cutoff = [] ∧
   ∀ y, y ∈ known → (ratio y want < cutoff)%Q) ∨
  (∃ m, get_close_matches ratio want known cutoff = [m] ∧
        m ∈ known ∧ (cutoff <= ratio m want)%Q ∧
        ∀ y, y ∈ known → (ratio y want <= ratio m want)%Q).
Proof.
  unfold get_close_matches.
  set (scored := (λ x, (ratio x want, x)) <$> elements known).
  set (result := filter (λ p, Qle_bool cutoff p.1 = true) scored).
  assert (Hscored : ∀ p, p ∈ scored ↔ p.2 ∈ known ∧ p.1 = ratio p.2 want).
  { intros [q x]. unfold scored. rewrite list_elem_of_fmap. cbn. split.
    - intros (y & [= -> ->] & Hy%elem_of_elements). done.
    - intros [Hx ->]. exists x. by rewrite elem_of_elements. }
  assert (Hresult : ∀ p, p ∈ result ↔ p ∈ scored ∧ (cutoff <= p.1)%Q).
  { intros p. unfold result. rewrite list_elem_of_filter, Qle_bool_iff. tauto. }
  destruct (max_scored result) as [[q m]|] eqn:Hmax.
  - right. exists m. apply max_scored_spec in Hmax as [Hin Hbest].
    apply Hresult in Hin as [Hin Hcut]. apply Hscored in Hin as [Hm Hq].
    cbn in *. subst q. repeat split; [done.. |].
    intros y Hy. destruct (Qlt_le_dec (ratio y want) cutoff) as [Hlow | Hhigh].
    + apply Qlt_le_weak. by eapply Qlt_le_trans.
    + apply (Hbest (ratio y want, y)). apply Hresult. split; [| done].
      by apply Hscored.
  - left. split; [done |]. intros y Hy.
    destruct (Qlt_le_dec (ratio y want) cutoff) as [Hlow | Hhigh]; [done |].
    assert (Hin : (ratio y want, y) ∈ result).
    { apply Hresult. split; [by apply Hscored | done]. }
    destruct result; [by apply elem_of_nil in Hin | done].
Qed.

(** C5, for a known-item set that is not empty.  The piece [raw], whose
    stripped text is [want], is replaced by a known item whose score is
    at least 0.6 and which no known item outscores, without a warning,
    when there is such an item; when every known item scores below 0.6
    the text [want] is kept and the warning "No close match" is raised.
    Either way the outcome goes on to the duplicate check. *)
Theorem subscribe_step_fuzzy known st raw :
  known ≠ ∅ →
  Str.strip raw ≠ "" →
  let want := Str.strip raw in
  (∃ m, m ∈ known ∧ (6 # 10 <= ratio m want)%Q ∧
        (∀ y, y ∈ known → (ratio y want <= ratio m want)%Q) ∧
        resolve ratio known raw want = (m, []) ∧
        subscribe_step ratio known st raw = register st m) ∨
  ((∀ y, y ∈ known → (ratio y want < 6 # 10)%Q) ∧
   resolve ratio known raw want = (want, [no_close_match raw]) ∧
   subscribe_step ratio known st raw =
     register {| subs := subs st; chosen := chosen st;
                 warn := warn st ++ [no_close_match raw] |} want).
Proof.
  intros Hknown Hwant want. unfold subscribe_step. fold want.
  destruct (decide (want = "")) as [? | _]; [done |].
  unfold resolve. destruct (decide (known ≠ ∅)) as [_ | ?]; [| done].
  destruct (get_close_matches_spec want known (6 # 10))
    as [[-> Hlow] | (m & -> & Hm & Hcut & Hbest)].
  - by right.
  - left. exists m. rewrite app_nil_r. by destruct st.
Qed.

(** *** Registration *)

Lemma existsb_present (l : list string) want :
  existsb (λ i, bool_decide (Str.lower i = Str.lower want)) l = true ↔ present l want.
Proof.
  unfold present. rewrite existsb_exists.
  split; intros (i & Hin & Heq); exists i.
  - by rewrite <- list_elem_of_In, bool_decide_eq_true in *.
  - by rewrite <- list_elem_of_In, bool_decide_eq_true.
Qed.

Lemma present_or_absent (l : list string) want : present l want ∨ ¬ present l want.
Proof.
  destruct (existsb (λ i, bool_decide (Str.lower i = Str.lower want)) l) eqn:Hex.
  - left. by apply existsb_present.
  - right. intros Hin%existsb_present. congruence.
Qed.

Lemma register_present st want :
  present (subs st) want →
  register st want =
    {| subs := subs st; chosen := chosen st;
       warn := warn st ++ [already_subscribed want] |}.
Proof.
  intros Hin%existsb_present. unfold register. by rewrite Hin.
Qed.

Lemma register_absent st want :
  ¬ present (subs st) want →
  register st want =
    {| subs := subs st ++ [want]; chosen := chosen st ++ [want];
       warn := warn st |}.
Proof.
  intros Hnot. unfold register.
  destruct (existsb _ (subs st)) eqn:Hex; [| done].
  by apply existsb_present in Hex.
Qed.

Lemma present_app_l (l l' : list string) want :
  present l want → present (l ++ l') want.
Proof. intros (i & Hin & Heq). exists i. split; [set_solver | done]. Qed.

(** After [register] the item is in the list, which has only grown at
    its end. *)
Lemma register_spec st want :
  present (subs (register st want)) want ∧
  ∃ added, subs (register st want) = subs st ++ added.
Proof.
  destruct (present_or_absent (subs st) want) as [Hin | Hnot].
  - rewrite register_present by done. cbn. split; [done |].
    exists []. by rewrite app_nil_r.
  - rewrite register_absent by done. cbn. split; [| by exists [want]].
    exists want. split; [set_solver | done].
Qed.

Lemma register_NoDup st want :
  NoDup (Str.lower <$> subs st) → NoDup (Str.lower <$> subs (register st want)).
Proof.
  intros Hnd. destruct (present_or_absent (subs st) want) as [Hin | Hnot].
  - by rewrite register_present.
  - rewrite register_absent by done. cbn. rewrite fmap_app. apply NoDup_app.
    split; [done |]. split; [| apply NoDup_singleton].
    intros x Hx ->%list_elem_of_singleton. apply Hnot.
    apply list_elem_of_fmap in Hx as (i & Heq & Hi). by exists i.
Qed.

Lemma subscribe_step_register known st raw :
  Str.strip raw ≠ "" →
  subscribe_step ratio known st raw =
    register {| subs := subs st; chosen := chosen st;
                warn := warn st ++ (resolve ratio known raw (Str.strip raw)).2 |}
             (resolved ratio known raw).
Proof.
  intros Hne. unfold subscribe_step, resolved. rewrite decide_False by done.
  by destruct (resolve ratio known raw (Str.strip raw)) as [want warned].
Qed.

Lemma subscribe_step_spec known st raw :
  (Str.strip raw ≠ "" → present (subs (subscribe_step ratio known st raw))
                                 (resolved ratio known raw)) ∧
  ∃ added, subs (subscribe_step ratio known st raw) = subs st ++ added.
Proof.
  destruct (decide (Str.strip raw = "")) as [Hempty | Hne].
  - split; [done |]. exists []. unfold subscribe_step.
    rewrite decide_True by done. by rewrite app_nil_r.
  - rewrite (subscribe_step_register known st raw Hne).
    destruct (register_spec
      {| subs := subs st; chosen := chosen st;
         warn := warn st ++ (resolve ratio known raw (Str.strip raw)).2 |}
      (resolved ratio known raw)) as [Hin Hgrow].
    split; [done | exact Hgrow].
Qed.

Lemma subscribe_step_NoDup known st raw :
  NoDup (Str.lower <$> subs st) →
  NoDup (Str.lower <$> subs (subscribe_step ratio known st raw)).
Proof.
  intros Hnd. destruct (decide (Str.strip raw = "")) as [Hempty | Hne].
  - unfold subscribe_step. by rewrite decide_True.
  - rewrite (subscribe_step_register known st raw Hne).
    by apply register_NoDup.
Qed.

Lemma subscribe_steps_NoDup known pieces : ∀ st,
  NoDup (Str.lower <$> subs st) →
  NoDup (Str.lower <$> subs (foldl (subscribe_step ratio known) st pieces)).
Proof.
  induction pieces as [|raw pieces IH]; intros st Hnd; [done |].
  cbn. by apply IH, subscribe_step_NoDup.
Qed.

(** After the loop every piece that is not blank has its item in the
    list. *)
Lemma subscribe_steps_present known pieces : ∀ st,
  (∃ added, subs (foldl (subscribe_step ratio known) st pieces) = subs st ++ added) ∧
  ∀ raw, raw ∈ pieces → Str.strip raw ≠ "" →
    present (subs (foldl (subscribe_step ratio known) st pieces)) (resolved ratio known raw).
Proof.
  induction pieces as [|raw pieces IH]; intros st.
  - split; [exists []; by rewrite app_nil_r |].
    intros raw Hin. by apply elem_of_nil in Hin.
  - cbn [foldl].
    destruct (IH (subscribe_step ratio known st raw)) as [[added Hgrow] Hall].
    destruct (subscribe_step_spec known st raw) as [Hnow [added0 Hgrow0]].
    split.
    + exists (added0 ++ added). by rewrite Hgrow, Hgrow0, app_assoc.
    + intros raw' [-> | Hin]%elem_of_cons Hne; [| by apply Hall].
      rewrite Hgrow. by apply present_app_l, Hnow.
Qed.

(** A second pass over pieces whose items are all in the list appends
    nothing. *)
Lemma subscribe_steps_again known pieces : ∀ st,
  (∀ raw, raw ∈ pieces → Str.strip raw ≠ "" →
          present (subs st) (resolved ratio known raw)) →
  subs (foldl (subscribe_step ratio known) st pieces) = subs st.
Proof.
  induction pieces as [|raw pieces IH]; intros st Hall; [done |].
  cbn [foldl].
  assert (Hsame : subs (subscribe_step ratio known st raw) = subs st).
  { destruct (decide (Str.strip raw = "")) as [Hempty | Hne].
    - unfold subscribe_step. by rewrite decide_True.
    - rewrite (subscribe_step_register known st raw Hne).
      rewrite register_present; [done |]. cbn. apply Hall; [left | done]. }
  rewrite IH; [done |]. rewrite Hsame. intros raw' Hin. apply Hall. by right.
Qed.

Lemma dict_set_set {V : Type} k (v v' : V) (d : list (string * V)) :
  Dict.set k v (Dict.set k v' d) = Dict.set k v d.
Proof.
  induction d as [|[k0 v0] d IH]; cbn.
  - by rewrite decide_True.
  - case_decide; cbn; [by rewrite decide_True | rewrite decide_False by done].
    by rewrite IH.
Qed.

Lemma dict_set_id {V : Type} k (v : V) (d : list (string * V)) :
  Dict.get k d = Some v → Dict.set k v d = d.
Proof.
  induction d as [|[k0 v0] d IH]; cbn; [done |].
  case_decide; subst; [by intros [= ->] |]. intros Hget. by rewrite IH.
Qed.

(** C6, as the code has it.  The item of a piece of input is the one the
    matching step resolved it to.  A command of one piece whose item the
    user's list has already, in whatever case, leaves the whole state as
    it was and answers "Already subscribed" (after the "No close match"
    warning, if the matching step raised it); inside a longer command
    such a piece changes neither the list nor the items chosen; no
    command ever makes two entries of the list equal up to case; and a
    command given twice leaves the table as the first run left it. *)
Theorem subscribe_idempotent (uid : string) (bot : bot_state) :
  (∀ items,
     Str.split_comma items = [items] → Str.strip items ≠ "" →
     present (default [] (Dict.get uid (subscriptions bot)))
             (resolved ratio (known_items bot) items) →
     subscribe ratio uid items bot =
       (bot, Str.join nl
               ((resolve ratio (known_items bot) items (Str.strip items)).2 ++
                [already_subscribed (resolved ratio (known_items bot) items)]))) ∧
  (∀ st want, present (subs st) want →
     register st want =
       {| subs := subs st; chosen := chosen st;
          warn := warn st ++ [already_subscribed want] |}) ∧
  (∀ items,
     NoDup (Str.lower <$> default [] (Dict.get uid (subscriptions bot))) →
     NoDup (Str.lower <$>
            default [] (Dict.get uid (subscriptions (subscribe ratio uid items bot).1)))) ∧
  (∀ items,
     (subscribe ratio uid items (subscribe ratio uid items bot).1).1 =
     (subscribe ratio uid items bot).1).
Proof.
  split; [| split; [| split]].
  - intros items Hsplit Hne Hin. unfold subscribe, subscribe_loop.
    rewrite Hsplit. cbn [foldl].
    rewrite (subscribe_step_register _ _ _ Hne), register_present by done.
    cbn [subs chosen warn].
    destruct (decide (@nil string ≠ [])) as [? | _]; [done |]. cbn [app].
    match goal with
    | |- context [decide (?l ≠ [])] => destruct (decide (l ≠ [])) as [_ | Hnil]
    end.
    2: { exfalso. apply Hnil. by destruct (resolve _ _ _ _).2. }
    f_equal.
    destruct (Dict.get uid (subscriptions bot)) as [l|] eqn:Hget.
    + cbn. rewrite dict_set_id by done. by destruct bot.
    + destruct Hin as (i & Hi & _). by apply elem_of_nil in Hi.
  - intros st want. apply register_present.
  - intros items Hnd. unfold subscribe. cbn [fst subscriptions].
    rewrite dict_get_set, decide_True by done. cbn.
    by apply subscribe_steps_NoDup.
  - intros items. unfold subscribe. cbn [fst subscriptions known_items
      current_interval last_snapshot autoscrape_enabled].
    rewrite dict_get_set, decide_True by done. cbn [default].
    rewrite dict_set_set. f_equal. f_equal.
    unfold subscribe_loop.
    set (subs0 := default [] (Dict.get uid (subscriptions bot))).
    set (st1 := foldl _ (mk_sub_loop subs0 [] []) _).
    apply (subscribe_steps_again (known_items bot) (Str.split_comma items)
             (mk_sub_loop (subs st1) [] [])).
    cbn [subs]. apply subscribe_steps_present.
Qed.


End SubscribeFacts.

(** *** The specification's examples, scored by [Difflib.ratio] *)

Lemma subscribe_step_fuzzy_witness :
  subscribe_step Difflib.ratio {["Carrot Seed"; "Tomato Seed"]}
    (mk_sub_loop [] [] []) "carot seed"
    = register (mk_sub_loop [] [] []) "Carrot Seed" ∧
  subscribe_step Difflib.ratio {["Carrot Seed"; "Tomato Seed"]}
    (mk_sub_loop [] [] []) "xyz123"
    = register (mk_sub_loop [] [] [no_close_match "xyz123"]) "xyz123".
Proof.
  assert (Hknown : ({["Carrot Seed"; "Tomato Seed"]} : gset string) ≠ ∅).
  { intros Heq. apply (f_equal elements) in Heq. vm_compute in Heq. discriminate. }
  split.
  - destruct (subscribe_step_fuzzy Difflib.ratio {["Carrot Seed"; "Tomato Seed"]}
                (mk_sub_loop [] [] []) "carot seed" Hknown)
      as [(m & _ & _ & _ & Hres & Hstep) | (_ & Hres & _)].
    + vm_compute. discriminate.
    + vm_compute in Hres. injection Hres as <-. exact Hstep.
    + vm_compute in Hres. discriminate.
  - destruct (subscribe_step_fuzzy Difflib.ratio {["Carrot Seed"; "Tomato Seed"]}
                (mk_sub_loop [] [] []) "xyz123" Hknown)
      as [(m & _ & _ & _ & Hres & _) | (_ & _ & Hstep)].
    + vm_compute. discriminate.
    + vm_compute in Hres. discriminate.
    + exact Hstep.
Defined.

(** C5 as stated fails on the empty known-item set: no known item
    reaches the threshold, the text is kept, and yet no "No close match"
    warning is raised. *)
Lemma subscribe_step_empty_known_counterexample :
  (∀ y, y ∈ (∅ : gset string) → (Difflib.ratio y "xyz123" < 6 # 10)%Q) ∧
  resolve Difflib.ratio ∅ "xyz123" "xyz123" = ("xyz123", []) ∧
  subscribe_step Difflib.ratio ∅ (mk_sub_loop [] [] []) "xyz123"
    = mk_sub_loop ["xyz123"] ["xyz123"] [] ∧
  no_close_match "xyz123"
    ∉ warn (subscribe_step Difflib.ratio ∅ (mk_sub_loop [] [] []) "xyz123").
Proof.
  split; [| split; [| split]].
  - intros y Hy. by apply not_elem_of_empty in Hy.
  - vm_compute. reflexivity.
  - vm_compute. reflexivity.
  - vm_compute. apply not_elem_of_nil.
Qed.

(** C6 as stated fails when the matching step resolves the text to
    another item: the list holds the very text the user types, and yet
    the command appends the known item closest to it and reports a new
    subscription. *)
Lemma subscribe_resolved_elsewhere_counterexample :
  present (default [] (Dict.get "42" (subscriptions Samples.bot_renamed)))
          "Carrot Seed" ∧
  Dict.get "42"
    (subscriptions (subscribe Difflib.ratio "42" "Carrot Seed" Samples.bot_renamed).1)
    = Some ["Carrot Seed"; "Carrot Seeds"] ∧
  (subscribe Difflib.ratio "42" "Carrot Seed" Samples.bot_renamed).2
    = "✅ Subscribed to: **Carrot Seeds**".
Proof.
  split; [| split]; [| vm_compute; reflexivity..].
  exists "Carrot Seed". split; [left | reflexivity].
Qed.

Lemma subscribe_idempotent_witness :
  subscribe Difflib.ratio "42" "carot seed" Samples.bot0
    = (Samples.bot0, "Already subscribed to **Carrot Seed**.") ∧
  register (mk_sub_loop ["carrot seed"] [] []) "Carrot Seed"
    = mk_sub_loop ["carrot seed"] [] [already_subscribed "Carrot Seed"] ∧
  NoDup (Str.lower <$> default [] (Dict.get "42"
    (subscriptions (subscribe Difflib.ratio "42" "RAKE, Tomato seed" Samples.bot0).1))) ∧
  subscriptions
    (subscribe Difflib.ratio "42" "carot seed, xyz123"
       (subscribe Difflib.ratio "42" "carot seed, xyz123" Samples.bot0).1).1
    = [("42", ["carrot seed"; "Rake"; "xyz123"]); ("7", ["RAKE"])].
Proof.
  destruct (subscribe_idempotent Difflib.ratio "42" Samples.bot0)
    as (Hsame & Hnoop & Hnodup & Hagain).
  split; [| split; [| split]].
  - refine (eq_trans (Hsame "carot seed" eq_refl _ _) _).
    + vm_compute. discriminate.
    + exists "carrot seed". split; [left | vm_compute; reflexivity].
    + vm_compute. reflexivity.
  - apply (Hnoop (mk_sub_loop ["carrot seed"] [] []) "Carrot Seed").
    exists "carrot seed". split; [left | reflexivity].
  - apply Hnodup. apply (bool_decide_unpack _). vm_compute. exact I.
  - rewrite Hagain. vm_compute. reflexivity.
Defined.


(** * Further properties *)

(** ** Scheduler *)

Section SchedulerFacts.

Local Open Scope Z_scope.

(** X1.  Whatever the time, the computed scrape time is a point of the
    grid (minute 1, 6, ..., 56 with nothing below the minute), has its
    fields in range, and lies on the very day of [now]. *)
Theorem next_scrape_time_on_grid (now : datetime) :
  valid now →
  aligned (calculate_next_scrape_time now) ∧
  valid (calculate_next_scrape_time now) ∧
  1 <= minute (calculate_next_scrape_time now) <= 56 ∧
  same_date (calculate_next_scrape_time now) now.
Proof.
  intros Hv. destruct (calculate_next_scrape_time_aligned now Hv) as [Hal Hval].
  split; [done |]. split; [done |]. split; [| apply calculate_next_scrape_time_same_date].
  rewrite (calculate_next_scrape_time_minute now Hv).
  destruct Hv as (_ & Hm & _).
  pose proof (Z.div_mod (minute now - 1) 5 ltac:(lia)) as Hdm.
  pose proof (Z.mod_pos_bound (minute now - 1) 5 ltac:(lia)) as Hb.
  case_tests; lia.
Qed.

Lemma next_scrape_time_on_grid_witness :
  aligned (calculate_next_scrape_time MoreSamples.late) ∧
  valid (calculate_next_scrape_time MoreSamples.late) ∧
  1 <= minute (calculate_next_scrape_time MoreSamples.late) <= 56 ∧
  same_date (calculate_next_scrape_time MoreSamples.late) MoreSamples.late.
Proof. apply next_scrape_time_on_grid. vm_compute. intuition congruence. Defined.

(** X2.  Before 23:56 the computed scrape time is the least point of the
    grid strictly after [now]. *)
Theorem next_scrape_time_least (now : datetime) :
  valid now →
  hour now < 23 ∨ minute now < 56 →
  dt_lt now (calculate_next_scrape_time now) ∧
  ∀ t, valid t → aligned t → dt_lt now t →
       dt_le (calculate_next_scrape_time now) t.
Proof.
  intros Hv Hearly. apply calculate_next_scrape_time_before_2356; [done | lia].
Qed.

Lemma next_scrape_time_least_witness :
  dt_lt MoreSamples.afternoon (calculate_next_scrape_time MoreSamples.afternoon) ∧
  dt_le (calculate_next_scrape_time MoreSamples.afternoon)
        (mk_datetime 2025 6 15 15 6 0 0).
Proof.
  destruct (next_scrape_time_least MoreSamples.afternoon) as [Hlt Hleast].
  - vm_compute. intuition congruence.
  - left. vm_compute. reflexivity.
  - split; [exact Hlt |]. apply Hleast.
    + vm_compute. intuition congruence.
    + vm_compute. intuition congruence.
    + vm_compute. reflexivity.
Defined.

Lemma wait_microseconds_same_day (now : datetime) :
  wait_microseconds now =
    time_of_day (calculate_next_scrape_time now) - time_of_day now.
Proof.
  unfold wait_microseconds, Calendar.sub_microseconds, Calendar.toordinal, time_of_day.
  destruct (calculate_next_scrape_time_same_date now) as (-> & -> & ->). lia.
Qed.

(** X3.  Before 23:56 the loop sleeps before it scrapes, for more than
    nothing and for at most five minutes, and the sleep ends exactly at
    the computed scrape time. *)
Theorem sleep_before_scrape_bounds (now : datetime) :
  valid now →
  hour now < 23 ∨ minute now < 56 →
  ∃ wait, sleep_before_scrape now = Some wait ∧
          0 < wait <= 300 * 1000000 ∧
          time_of_day now + wait = time_of_day (calculate_next_scrape_time now).
Proof.
  intros Hv Hearly. exists (wait_microseconds now).
  pose proof (wait_microseconds_same_day now) as Hwait.
  pose proof (calculate_next_scrape_time_minute now Hv) as Hmin.
  destruct (calculate_next_scrape_time_aligned now Hv) as ((_ & Hs & Hu) & _).
  assert (Hh : hour (calculate_next_scrape_time now) =
               if minute now <? 56 then hour now else hour now + 1).
  { destruct Hv as (Hh & Hm & _). unfold calculate_next_scrape_time.
    pose proof (Z.div_mod (minute now) 5 ltac:(lia)) as Hdm.
    pose proof (Z.mod_pos_bound (minute now) 5 ltac:(lia)) as Hb.
    case_tests; cbn [hour replace]; lia. }
  destruct Hv as (Hhr & Hm & Hsec & Hus).
  pose proof (Z.div_mod (minute now - 1) 5 ltac:(lia)) as Hdm'.
  pose proof (Z.mod_pos_bound (minute now - 1) 5 ltac:(lia)) as Hb'.
  assert (Hbound : 0 < wait_microseconds now <= 300 * 1000000).
  { rewrite Hwait. unfold time_of_day. rewrite Hh, Hmin, Hs, Hu.
    destruct (Z.ltb_spec (minute now) 56); lia. }
  split; [| split; [done | lia]].
  unfold sleep_before_scrape. destruct (Z.ltb_spec 0 (wait_microseconds now)); [done | lia].
Qed.

Lemma sleep_before_scrape_bounds_witness :
  sleep_before_scrape MoreSamples.afternoon = Some 209750000.
Proof.
  destruct (sleep_before_scrape_bounds MoreSamples.afternoon) as (wait & Heq & _ & _).
  - vm_compute. intuition congruence.
  - left. vm_compute. reflexivity.
  - rewrite Heq. vm_compute in Heq. congruence.
Defined.

(** X4.  From 23:56 on the computed time is behind the clock, so an
    enabled pass does not sleep at all before it scrapes. *)
Theorem polling_loop_pass_end_of_day (OWNER_ID : string) (now now' : datetime)
    (channel : option Z) (bot : bot_state) (w : world) :
  valid now → hour now = 23 → 56 <= minute now →
  autoscrape_enabled bot = true →
  wait_microseconds now <= - (86100 * 1000000) ∧
  polling_loop_pass OWNER_ID now now' channel bot w =
    (None, polling_loop_iteration OWNER_ID now' channel bot w).
Proof.
  intros Hv H23 H56 Hon.
  destruct (calculate_next_scrape_time_after_2356 now Hv H23 H56) as [Heq _].
  assert (Hwait : wait_microseconds now <= - (86100 * 1000000)).
  { rewrite wait_microseconds_same_day, Heq. unfold time_of_day. cbn.
    destruct Hv as (_ & _ & ? & ?). lia. }
  split; [done |]. unfold polling_loop_pass, sleep_before_scrape. rewrite Hon. cbn.
  destruct (Z.ltb_spec 0 (wait_microseconds now)); [lia | done].
Qed.

Lemma polling_loop_pass_end_of_day_witness :
  (polling_loop_pass "" MoreSamples.late MoreSamples.late (Some 5) Samples.bot0
     Samples.world_down).1 = None.
Proof.
  destruct (polling_loop_pass_end_of_day "" MoreSamples.late MoreSamples.late
              (Some 5) Samples.bot0 Samples.world_down) as [_ Heq].
  - vm_compute. intuition congruence.
  - reflexivity.
  - vm_compute. discriminate.
  - reflexivity.
  - rewrite Heq. reflexivity.
Defined.

End SchedulerFacts.

(** ** Retry coordinator, any number of attempts *)

Section RetryFacts.

Lemma scrape_garden_stock_xor (resp : response) :
  (∃ data, scrape_garden_stock resp = (Some data, None)) ∨
  (∃ msg, scrape_garden_stock resp = (None, Some msg)).
Proof.
  unfold scrape_garden_stock. destruct resp as [| detail | status body];
    [right; eauto.. |].
  repeat case_decide; [right; eauto.. |].
  destruct (parse_stock body); [left | right]; eauto.
Qed.

(** Among the first [n] attempts there is a first success, or none
    succeeds. *)
Lemma first_success_or_none (w : world) (n : nat) :
  (∃ k stock, (k < n)%nat ∧ (∀ j, (j < k)%nat → (outcome w j).1 = None) ∧
              (outcome w k).1 = Some stock) ∨
  (∀ j, (j < n)%nat → (outcome w j).1 = None).
Proof.
  induction n as [|n [(k & stock & Hk & Hfail & Hok) | Hnone]].
  - right. intros j Hj. lia.
  - left. exists k, stock. split; [lia | done].
  - destruct ((outcome w n).1) as [stock|] eqn:Hn.
    + left. exists n, stock. split; [lia |]. split; [| done].
      intros j Hj. by apply Hnone.
    + right. intros j Hj. destruct (decide (j = n)) as [-> | Hne]; [done |].
      apply Hnone. lia.
Qed.

(** X5.  [scrape_with_retries] for any arguments.  With no attempt
    allowed it returns [(None, None)] without fetching.  Otherwise the
    first attempt that succeeds ends it with that stock, after one sleep
    of [delay] for each failure before it; and when all [max_attempts]
    fail it returns the error of the last one, having slept after every
    attempt but the last. *)
Theorem scrape_with_retries_any (max_attempts delay : Z) (w : world) :
  (max_attempts <= 0 →
     scrape_with_retries max_attempts delay w = ((None, None), w))%Z ∧
  (∀ k stock,
     (Z.of_nat k < max_attempts)%Z →
     (∀ j, j < k → (outcome w j).1 = None) →
     (outcome w k).1 = Some stock →
     scrape_with_retries max_attempts delay w =
       ((Some stock, None), after_attempts delay w k)) ∧
  (∀ n,
     max_attempts = Z.of_nat (S n) →
     (∀ j, j ≤ n → (outcome w j).1 = None) →
     scrape_with_retries max_attempts delay w =
       ((None, (outcome w n).2), after_attempts delay w n)).
Proof.
  unfold scrape_with_retries. split; [| split].
  - intros Hmax. rewrite retry_loop_eq. by rewrite decide_False by lia.
  - intros k stock Hk Hfail Hok. apply retry_loop_success; [lia | done..].
  - intros n Hmax Hfail. apply retry_loop_exhausted; [lia | done].
Qed.

Lemma scrape_with_retries_any_witness :
  scrape_with_retries 0 7 Samples.world_down = ((None, None), Samples.world_down) ∧
  scrape_with_retries 5 7 Samples.world_third_time =
    ((Some Samples.stock_ok, None),
     mk_world Samples.net_third_time 3
       [EvScrape; EvSleep 7; EvScrape; EvSleep 7; EvScrape]) ∧
  scrape_with_retries 2 7 Samples.world_third_time =
    ((None, Some "Cloudflare 520 Error"),
     mk_world Samples.net_third_time 2 [EvScrape; EvSleep 7; EvScrape]).
Proof.
  split; [| split].
  - apply (proj1 (scrape_with_retries_any 0 7 Samples.world_down)). lia.
  - apply (proj1 (proj2 (scrape_with_retries_any 5 7 Samples.world_third_time)) 2).
    + lia.
    + intros [|[|j]] Hj; [reflexivity.. | lia].
    + reflexivity.
  - apply (proj2 (proj2 (scrape_with_retries_any 2 7 Samples.world_third_time)) 1).
    + reflexivity.
    + intros [|[|j]] Hj; [reflexivity.. | lia].
Defined.

(** Which attempt decides, for any positive number of attempts. *)
Lemma scrape_with_retries_any_cases (max_attempts delay : Z) (w : world) :
  (0 < max_attempts)%Z →
  (∃ k stock, (Z.of_nat k < max_attempts)%Z ∧
     scrape_with_retries max_attempts delay w =
       ((Some stock, None), after_attempts delay w k)) ∨
  (∃ n, max_attempts = Z.of_nat (S n) ∧
     (∃ msg, ((None, (outcome w n).2) : scrape_result) = (None, Some msg)) ∧
     scrape_with_retries max_attempts delay w =
       ((None, (outcome w n).2), after_attempts delay w n)).
Proof.
  intros Hpos. unfold scrape_with_retries.
  destruct (first_success_or_none w (Z.to_nat max_attempts))
    as [(k & stock & Hk & Hfail & Hok) | Hnone].
  - left. exists k, stock. split; [lia |].
    apply retry_loop_success; [lia | done..].
  - right. exists (Z.to_nat max_attempts - 1)%nat.
    assert (Hmax : max_attempts = Z.of_nat (S (Z.to_nat max_attempts - 1))) by lia.
    split; [done |]. split.
    + pose proof (Hnone (Z.to_nat max_attempts - 1)%nat ltac:(lia)) as Hlast.
      unfold outcome in *.
      destruct (scrape_garden_stock_xor
                  (network w (fetched w + (Z.to_nat max_attempts - 1))))
        as [[data Heq] | [msg Heq]]; rewrite Heq in *; [done | eauto].
    + apply retry_loop_exhausted; [lia |]. intros j Hj. apply Hnone. lia.
Qed.

(** X6.  As soon as one attempt is allowed, [scrape_with_retries] comes
    back with a stock and no error, or with no stock and an error
    message: never with both, never with neither.  It fetches at least
    once and at most [max_attempts] times, and it changes nothing of the
    world but the count of fetches and the trace. *)
Theorem scrape_with_retries_xor (max_attempts delay : Z) (w : world) :
  (0 < max_attempts)%Z →
  ((∃ stock, (scrape_with_retries max_attempts delay w).1 = (Some stock, None)) ∨
   (∃ msg, (scrape_with_retries max_attempts delay w).1 = (None, Some msg))) ∧
  (fetched w < fetched (scrape_with_retries max_attempts delay w).2)%nat ∧
  (Z.of_nat (fetched (scrape_with_retries max_attempts delay w).2)
     <= Z.of_nat (fetched w) + max_attempts)%Z ∧
  network (scrape_with_retries max_attempts delay w).2 = network w.
Proof.
  intros Hpos.
  destruct (scrape_with_retries_any_cases max_attempts delay w Hpos)
    as [(k & stock & Hk & ->) | (n & Hn & Hsome & ->)]; cbn.
  - split; [left; eauto |]. split; [lia |]. split; [lia | done].
  - split; [right; exact Hsome |]. split; [lia |]. split; [lia | done].
Qed.

Lemma scrape_with_retries_xor_witness :
  ((∃ stock, (scrape_with_retries 2 7 Samples.world_third_time).1 = (Some stock, None)) ∨
   (∃ msg, (scrape_with_retries 2 7 Samples.world_third_time).1 = (None, Some msg))) ∧
  (fetched Samples.world_third_time
     < fetched (scrape_with_retries 2 7 Samples.world_third_time).2)%nat ∧
  (Z.of_nat (fetched (scrape_with_retries 2 7 Samples.world_third_time).2)
     <= Z.of_nat (fetched Samples.world_third_time) + 2)%Z ∧
  network (scrape_with_retries 2 7 Samples.world_third_time).2
    = network Samples.world_third_time.
Proof. apply (scrape_with_retries_xor 2 7 Samples.world_third_time). lia. Defined.

End RetryFacts.

(** ** Parser: what each category holds *)

Section ParserFacts.
Import Soup.

Lemma items_at_append k k' (x : item) (d : stock_t) :
  items_at k (Dict.append k' x d) =
    if decide (k' = k) then items_at k d ++ [x] else items_at k d.
Proof. unfold items_at. rewrite dict_get_append. by case_decide. Qed.

Lemma items_at_append_item k cat (o : option item) (d : stock_t) :
  items_at k (append_item cat d o) =
    items_at k d ++ (if decide (cat = k) then option_list o else []).
Proof.
  destruct o as [it|]; cbn [append_item option_list].
  - rewrite items_at_append. case_decide; [done | by rewrite app_nil_r].
  - case_decide; by rewrite app_nil_r.
Qed.

Lemma omap_cons_option_list {A B : Type} (f : A → option B) x l :
  omap f (x :: l) = option_list (f x) ++ omap f l.
Proof. cbn. by destruct (f x). Qed.

Lemma dedicated_loop_items k label lis : ∀ data,
  items_at k (foldl (λ data li, append_item label data (dedicated_item li)) data lis) =
    items_at k data ++ (if decide (label = k) then omap dedicated_item lis else []).
Proof.
  induction lis as [|li lis IH]; intros data.
  - cbn. case_decide; by rewrite app_nil_r.
  - cbn [foldl]. rewrite IH, items_at_append_item, omap_cons_option_list.
    case_decide; by rewrite <- app_assoc.
Qed.

Lemma dedicated_section_items k label soup data :
  items_at k (dedicated_section label soup data) =
    items_at k data ++ (if decide (label = k) then dedicated_items label soup else []).
Proof.
  unfold dedicated_section, dedicated_items.
  destruct (find_string "h2" label soup) as [header|];
    [| case_decide; by rewrite app_nil_r].
  destruct (find_next_sibling "ul" header) as [ul|];
    [| case_decide; by rewrite app_nil_r].
  apply dedicated_loop_items.
Qed.

(** When the generic loop does not raise on an entry it reads what the
    seeds and eggs loops read. *)
Lemma generic_item_Ok li o : generic_item li = Ok o → dedicated_item li = o.
Proof.
  unfold generic_item, dedicated_item.
  destruct (find "img" li) as [img|]; [| by intros [= <-]].
  destruct (find_class "span" "text-gray-400" li) as [span|]; [| by intros [= <-]].
  destruct (getitem "alt" img) as [alt|] eqn:Halt; [| done].
  intros [= <-]. unfold get, getitem in *. destruct (img.1); [done |].
  by rewrite Halt.
Qed.

Lemma generic_loop_items k cat lis : ∀ data data',
  for_each (λ data li, bind (generic_item li) (λ it, Ok (append_item cat data it)))
    data lis = Ok data' →
  items_at k data' =
    items_at k data ++ (if decide (cat = k) then omap dedicated_item lis else []).
Proof.
  induction lis as [|li lis IH]; intros data data'.
  - cbn. intros [= <-]. case_decide; by rewrite app_nil_r.
  - cbn [for_each]. rewrite omap_cons_option_list.
    destruct (generic_item li) as [o|e] eqn:Hli; cbn [bind]; [| done].
    intros Hrest. rewrite (IH _ _ Hrest), items_at_append_item.
    rewrite (generic_item_Ok _ _ Hli). case_decide; by rewrite <- app_assoc.
Qed.

Lemma generic_step_items k data h2 data' :
  generic_step data h2 = Ok data' →
  items_at k data' =
    items_at k data ++
    (if decide (k = "SEEDS STOCK") then []
     else if decide (get_text_strip h2 = k) then generic_items h2 else []).
Proof.
  unfold generic_step, generic_items.
  destruct (decide (get_text_strip h2 = "SEEDS STOCK")) as [Hseeds | Hother].
  - intros [= <-]. rewrite Hseeds. repeat case_decide; try done; by rewrite app_nil_r.
  - destruct (find_next_sibling "ul" h2) as [ul|].
    + intros Hloop. rewrite (generic_loop_items k _ _ _ _ Hloop).
      repeat case_decide; subst; done.
    + intros [= <-]. repeat case_decide; by rewrite app_nil_r.
Qed.

Lemma generic_steps_items k hs : ∀ data data',
  for_each generic_step data hs = Ok data' →
  items_at k data' =
    items_at k data ++
    (if decide (k = "SEEDS STOCK") then []
     else concat (generic_items <$> filter (λ h2, get_text_strip h2 = k) hs)).
Proof.
  induction hs as [|h2 hs IH]; intros data data'.
  - cbn. intros [= <-]. case_decide; by rewrite app_nil_r.
  - cbn [for_each]. rewrite filter_cons.
    destruct (generic_step data h2) as [d1|e] eqn:Hstep; cbn [bind]; [| done].
    intros Hrest. rewrite (IH _ _ Hrest), (generic_step_items k _ _ _ Hstep).
    repeat case_decide; try done; rewrite ?fmap_cons; cbn [concat];
      rewrite <- ?app_assoc, ?app_nil_r; done.
Qed.

Lemma parse_stock_items (soup : list node) (data : stock_t) (k : string) :
  parse_stock soup = Ok data →
  items_at k data =
    (if decide (k = "SEEDS STOCK") then dedicated_items "SEEDS STOCK" soup else [])
    ++ generic_part k soup
    ++ (if decide (k = "EGGS STOCK") then dedicated_items "EGGS STOCK" soup else []).
Proof.
  unfold parse_stock.
  destruct (generic_sections soup _) as [d2|e] eqn:Hgen; cbn; [| done].
  intros [= <-]. rewrite dedicated_section_items.
  change (generic_sections soup ?d) with (for_each generic_step d (select_h2 soup)) in Hgen.
  rewrite (generic_steps_items k _ _ _ Hgen), dedicated_section_items.
  unfold generic_part, items_at. cbn.
  repeat case_decide; subst; try done; by rewrite <- ?app_assoc.
Qed.

(** X7.  What a successful parse files under each category: under the
    seeds label exactly the items of the seeds extraction, the generic
    loop adding none; under any other label the items under every
    heading of the selector that bears this text, in document order; and
    under the eggs label, after those, the items of the eggs extraction
    once more. *)
Theorem parse_stock_categories (soup : list node) (data : stock_t) (k : string) :
  parse_stock soup = Ok data →
  items_at k data =
    (if decide (k = "SEEDS STOCK") then dedicated_items "SEEDS STOCK" soup else [])
    ++ generic_part k soup
    ++ (if decide (k = "EGGS STOCK") then dedicated_items "EGGS STOCK" soup else []).
Proof. apply parse_stock_items. Qed.

Lemma parse_stock_categories_witness :
  items_at "SEEDS STOCK" Samples.stock_ok = [("Carrot Seed", "x5")] ∧
  items_at "GEAR STOCK" Samples.stock_ok = [("Rake", "x3")].
Proof.
  split.
  - refine (eq_trans (parse_stock_categories Samples.page_ok _ "SEEDS STOCK" _) _);
      reflexivity.
  - refine (eq_trans (parse_stock_categories Samples.page_ok _ "GEAR STOCK" _) _);
      reflexivity.
Defined.

(** A heading found by its text shows that text. *)
Lemma dot_string_all_strings : ∀ n s, dot_string n = Some s → all_strings n = [s].
Proof.
  fix IH 1. intros [s'|name cls attrs cs] s.
  - cbn. by intros [= ->].
  - destruct cs as [|c [|c' cs']]; [done | | done].
    cbn. intros Hc. by rewrite (IH c s Hc).
Qed.

Lemma find_string_text label soup h :
  find_string "h2" label soup = Some h →
  get_text_strip h = Str.join "" (filter (λ s, s ≠ "") [Str.strip label]).
Proof.
  unfold find_string. intros Hhead%head_Some_elem_of.
  apply list_elem_of_filter in Hhead as [[_ Hdot] _].
  unfold get_text_strip. by rewrite (dot_string_all_strings _ _ Hdot).
Qed.

Lemma occurrences_concat_elem {A : Type} `{EqDecision A} (x : A) l (L : list (list A)) :
  l ∈ L → occurrences x l ≤ occurrences x (concat L).
Proof.
  induction L as [|l' L IH]; [by intros ?%elem_of_nil |].
  cbn [concat]. rewrite occurrences_app.
  intros [-> | Hin]%elem_of_cons; [lia |]. specialize (IH Hin). lia.
Qed.

(** X8.  When the eggs heading also matches the selector of the generic
    loop, a successful parse has read its entries twice: every egg is in
    the eggs list at least twice as often as the page lists it. *)
Theorem eggs_listed_twice (soup : list node) (data : stock_t) (h : element) :
  parse_stock soup = Ok data →
  find_string "h2" "EGGS STOCK" soup = Some h →
  h ∈ select_h2 soup →
  ∀ it, 2 * occurrences it (dedicated_items "EGGS STOCK" soup)
        ≤ occurrences it (items_at "EGGS STOCK" data).
Proof.
  intros Hparse Hfind Hsel it.
  rewrite (parse_stock_items soup data "EGGS STOCK" Hparse).
  rewrite decide_False by done. rewrite decide_True by done.
  cbn [app]. rewrite occurrences_app.
  assert (Hgen : generic_items h = dedicated_items "EGGS STOCK" soup).
  { unfold generic_items, dedicated_items. by rewrite Hfind. }
  assert (Htext : get_text_strip h = "EGGS STOCK").
  { by rewrite (find_string_text _ _ _ Hfind). }
  enough (occurrences it (generic_items h)
          ≤ occurrences it (generic_part "EGGS STOCK" soup)) by (rewrite <- Hgen; lia).
  unfold generic_part. rewrite decide_False by done.
  apply occurrences_concat_elem. apply list_elem_of_fmap. exists h.
  split; [done |]. by apply list_elem_of_filter.
Qed.

Lemma eggs_listed_twice_witness :
  2 * occurrences ("Common Egg", "x1")
        (dedicated_items "EGGS STOCK" MoreSamples.page_eggs)
  ≤ occurrences ("Common Egg", "x1")
      (items_at "EGGS STOCK"
         [("EGGS STOCK", [("Common Egg", "x1"); ("Common Egg", "x1")])]).
Proof.
  eapply (eggs_listed_twice MoreSamples.page_eggs).
  - reflexivity.
  - reflexivity.
  - apply list_elem_of_lookup. exists 0. reflexivity.
Defined.

(** X9.  The stock of a successful scrape is a proper dictionary of
    non-empty lists: no category occurs twice and no category is
    empty. *)
Theorem scrape_stock_well_formed (resp : response) (data : stock_t)
    (err : option string) :
  scrape_garden_stock resp = (Some data, err) →
  NoDup (Dict.keys data) ∧ ∀ cat items, (cat, items) ∈ data → items ≠ [].
Proof.
  intros Hres. by destruct (scrape_garden_stock_extracted _ _ _ Hres) as (_ & _ & Hwf).
Qed.

Lemma scrape_stock_well_formed_witness :
  NoDup (Dict.keys Samples.stock_ok) ∧
  ∀ cat items, (cat, items) ∈ Samples.stock_ok → items ≠ [].
Proof.
  apply (scrape_stock_well_formed (Response 200 Samples.page_ok) _ None).
  vm_compute. reflexivity.
Defined.

Lemma generic_item_Raise li e : generic_item li = Raise e → e = "'alt'".
Proof.
  unfold generic_item. repeat case_match; naive_solver.
Qed.

(** A loop all of whose exceptions carry one text ends with it as soon as
    the body raises on some element whatever it is handed. *)
Lemma for_each_raises {A B : Type} (body : A → B → result A) (e0 : string) x l :
  (∀ acc y e, body acc y = Raise e → e = e0) →
  x ∈ l → (∀ acc, body acc x = Raise e0) →
  ∀ acc, for_each body acc l = Raise e0.
Proof.
  intros Hsame Hin Hx. induction l as [|y l IH]; intros acc;
    [by apply elem_of_nil in Hin |].
  cbn [for_each]. destruct (body acc y) as [a|e] eqn:Hy; cbn [bind].
  - apply elem_of_cons in Hin as [-> | Hin]; [by rewrite Hx in Hy | by apply IH].
  - by rewrite (Hsame _ _ _ Hy).
Qed.

Lemma generic_step_Raise data h2 e : generic_step data h2 = Raise e → e = "'alt'".
Proof.
  unfold generic_step. case_decide; [done |].
  destruct (find_next_sibling "ul" h2) as [ul|]; [| done].
  generalize (find_all "li" "bg-gray-900" ul). intros lis. revert data.
  induction lis as [|li lis IH]; intros data; cbn [for_each]; [done |].
  destruct (generic_item li) as [o|e'] eqn:Hli; cbn [bind].
  - apply IH.
  - intros [= <-]. by eapply generic_item_Raise.
Qed.

(** X10.  One entry of a generic category whose image has no [alt]
    attribute, beside a quantity, makes the whole scrape fail with the
    parse error of that attribute, whatever else the page holds and
    whatever was extracted before. *)
Theorem scrape_fails_on_missing_alt (soup : list node) (h ul li img span : element) :
  h ∈ select_h2 soup →
  get_text_strip h ≠ "SEEDS STOCK" →
  find_next_sibling "ul" h = Some ul →
  li ∈ find_all "li" "bg-gray-900" ul →
  find "img" li = Some img →
  find_class "span" "text-gray-400" li = Some span →
  getitem "alt" img = None →
  scrape_garden_stock (Response 200 soup) = (None, Some "Parse error: 'alt'").
Proof.
  intros Hh Hcat Hul Hli Himg Hspan Halt.
  assert (Hitem : generic_item li = Raise "'alt'").
  { unfold generic_item. by rewrite Himg, Hspan, Halt. }
  assert (Hstep : ∀ data, generic_step data h = Raise "'alt'").
  { intros data. unfold generic_step. rewrite decide_False by done. rewrite Hul.
    apply (for_each_raises _ _ li); [| done |].
    - intros acc y e. destruct (generic_item y) as [o|e'] eqn:Hy; cbn [bind]; [done |].
      intros [= <-]. by eapply generic_item_Raise.
    - intros acc. by rewrite Hitem. }
  assert (Hgen : ∀ data, generic_sections soup data = Raise "'alt'").
  { intros data.
    change (generic_sections soup data) with (for_each generic_step data (select_h2 soup)).
    apply (for_each_raises _ _ h); [| done..].
    intros acc y e. apply generic_step_Raise. }
  unfold scrape_garden_stock, parse_stock. cbn. by rewrite Hgen.
Qed.

Lemma scrape_fails_on_missing_alt_witness :
  scrape_garden_stock (Response 200 MoreSamples.page_seeds_then_bad)
    = (None, Some "Parse error: 'alt'").
Proof.
  eapply (scrape_fails_on_missing_alt MoreSamples.page_seeds_then_bad).
  - apply list_elem_of_lookup. exists 1. reflexivity.
  - vm_compute. discriminate.
  - reflexivity.
  - apply list_elem_of_lookup. exists 1. reflexivity.
  - reflexivity.
  - reflexivity.
  - reflexivity.
Defined.

End ParserFacts.

(** ** Differ: what the mentions hold *)

Section MentionFacts.

Implicit Types (subs : list (string * list string)).
Implicit Types (m : list (string * list string)) (stock : stock_t).

Lemma proper_mentions_append names m name x :
  proper_mentions names m → name ∈ names →
  proper_mentions names (Dict.append name x m).
Proof.
  intros [Hnd Hall] Hname. split; [by apply dict_NoDup_set |].
  intros k users Hin. unfold Dict.append in Hin.
  apply dict_elem_of_set in Hin as [[-> ->] | Hin]; [| by apply Hall].
  split; [done |]. by destruct (default [] (Dict.get name m)).
Qed.

Lemma proper_mentions_subscribers names subs name : ∀ m,
  proper_mentions names m → name ∈ names →
  proper_mentions names (mention_subscribers subs name m).
Proof.
  unfold mention_subscribers.
  induction subs as [|[uid user_items] subs IH]; intros m Hm Hname; [done |].
  cbn [foldl]. apply IH; [| done].
  case_bool_decide; [by apply proper_mentions_append | done].
Qed.

Lemma proper_mentions_items names subs items : ∀ m,
  proper_mentions names m → items.*1 ⊆ names →
  proper_mentions names (mention_items subs items m).
Proof.
  unfold mention_items.
  induction items as [|[name q] items IH]; intros m Hm Hsub; [done |].
  cbn [foldl]. apply IH; [| set_solver].
  apply proper_mentions_subscribers; [done | set_solver].
Qed.

Lemma proper_mentions_loop names subs stock : ∀ st,
  proper_mentions names (loop_mentions st) → listed_names stock ⊆ names →
  proper_mentions names (loop_mentions (foldl (build_embed_step subs) st stock)).
Proof.
  unfold listed_names.
  induction stock as [|[cat items] stock IH]; intros st Hst Hsub; [done |].
  cbn [foldl]. rewrite fmap_cons in Hsub. cbn [concat snd] in Hsub.
  apply IH; [| set_solver]. cbn.
  destruct (category_changed _ _ _); [| done].
  apply proper_mentions_items; [done | set_solver].
Qed.

Lemma build_embed_proper (stock : stock_t) (now : datetime) (bot : bot_state) :
  proper_mentions (listed_names stock) (build_embed stock now bot).1.2.
Proof.
  unfold build_embed. cbn [fst snd]. apply proper_mentions_loop; [| done].
  split; [apply NoDup_nil_2 |]. intros name users Hin. by apply elem_of_nil in Hin.
Qed.

Lemma alert_messages_proper names m :
  proper_mentions names m → alert_messages m = alert_line <$> m.
Proof.
  intros [_ Hall]. unfold alert_messages.
  assert (Hfilter : ∀ l : list (string * list string),
            (∀ p, p ∈ l → p.2 ≠ []) → filter (λ p, p.2 ≠ []) l = l).
  { induction l as [|p l IH]; intros Hl; [done |].
    rewrite filter_cons_True by (apply Hl; left). f_equal. apply IH.
    intros q Hq. apply Hl. by right. }
  rewrite Hfilter.
  - apply list_fmap_ext. by intros i [item users] _.
  - intros [name users] Hp. by apply (Hall name users).
Qed.

(** X11.  The mentions [build_embed] returns are keyed by names the
    stock lists, no name twice, and no key holds an empty list: the
    digest has exactly one line for every key. *)
Theorem build_embed_mentions_proper (stock : stock_t) (now : datetime)
    (bot : bot_state) :
  NoDup (Dict.keys (build_embed stock now bot).1.2) ∧
  (∀ name users, (name, users) ∈ (build_embed stock now bot).1.2 →
     name ∈ listed_names stock ∧ users ≠ []) ∧
  alert_messages (build_embed stock now bot).1.2
    = alert_line <$> (build_embed stock now bot).1.2.
Proof.
  pose proof (build_embed_proper stock now bot) as Hm.
  split; [apply Hm |]. split; [apply Hm |]. by eapply alert_messages_proper.
Qed.

Lemma only_subscribers_step subs name m :
  only_subscribers subs m → only_subscribers subs (mention_subscribers subs name m).
Proof.
  intros Hm name' x. rewrite mention_subscribers_at.
  intros [Hold | Hnew]%elem_of_app; [by apply Hm |].
  case_decide as Heq; [subst name' | by apply elem_of_nil in Hnew].
  apply list_elem_of_fmap in Hnew as (uid & -> & Huid).
  unfold subscribers_of in Huid.
  apply list_elem_of_fmap in Huid as ([uid' user_items] & -> & Hin).
  apply list_elem_of_filter in Hin as [Hmatch Hin]. by exists uid', user_items.
Qed.

Lemma only_subscribers_items subs items : ∀ m,
  only_subscribers subs m → only_subscribers subs (mention_items subs items m).
Proof.
  unfold mention_items.
  induction items as [|[name q] items IH]; intros m Hm; [done |].
  cbn [foldl]. by apply IH, only_subscribers_step.
Qed.

Lemma only_subscribers_loop subs stock : ∀ st,
  only_subscribers subs (loop_mentions st) →
  only_subscribers subs (loop_mentions (foldl (build_embed_step subs) st stock)).
Proof.
  induction stock as [|[cat items] stock IH]; intros st Hst; [done |].
  cbn [foldl]. apply IH. cbn.
  destruct (category_changed _ _ _); [by apply only_subscribers_items | done].
Qed.

(** X12.  [build_embed] never mentions anyone but a subscriber: every
    mention filed under a name is the mention of a user of the table
    whose list has that name, up to case. *)
Theorem build_embed_mentions_subscribers (stock : stock_t) (now : datetime)
    (bot : bot_state) (name x : string) :
  x ∈ values_at name (build_embed stock now bot).1.2 →
  ∃ uid user_items,
    (uid, user_items) ∈ subscriptions bot ∧ x = mention uid ∧
    Str.lower name ∈ Str.lower <$> user_items.
Proof.
  apply (only_subscribers_loop (subscriptions bot) stock
           (mk_loop [] [] (last_snapshot bot))).
  intros name' y Hy. by apply elem_of_nil in Hy.
Qed.

Lemma build_embed_mentions_subscribers_witness :
  ∃ uid user_items,
    (uid, user_items) ∈ subscriptions Samples.bot0 ∧ "<@7>" = mention uid ∧
    Str.lower "Rake" ∈ Str.lower <$> user_items.
Proof.
  apply (build_embed_mentions_subscribers Samples.stock1 Samples.noon Samples.bot0).
  apply (bool_decide_unpack _). vm_compute. exact I.
Defined.

Lemma foldl_filter {A B : Type} (P : B → Prop) `{∀ x, Decision (P x)}
    (f : A → B → A) (l : list B) : ∀ a,
  foldl (λ a x, if decide (P x) then f a x else a) a l = foldl f a (filter P l).
Proof.
  induction l as [|x l IH]; intros a; [done |].
  rewrite filter_cons. cbn [foldl]. rewrite IH. by case_decide.
Qed.

(** X13.  Publishing the same stock a second time evaluates the
    designated categories only: every other category is found unchanged
    in the snapshot the first call left, whatever the snapshot was
    before. *)
Theorem build_embed_again (stock : stock_t) (now now' : datetime) (bot : bot_state) :
  NoDup (Dict.keys stock) →
  (build_embed stock now' (build_embed stock now bot).2).1.2 =
    foldl (λ m e, mention_items (subscriptions bot) e.2 m) [] (designated stock).
Proof.
  intros Hnd. unfold build_embed at 1. cbn [fst snd].
  rewrite loop_mentions_foldl by done. cbn [loop_mentions loop_last].
  unfold designated.
  rewrite <- (foldl_filter (λ e : string * list item, e.1 ∈ always_notify)
                (λ m e, mention_items (subscriptions bot) e.2 m)).
  apply foldl_ext_in.
  intros m [cat items] Hin. cbn [fst snd].
  assert (Hlast : last_snapshot (build_embed stock now bot).2 !! cat = Some items).
  { unfold build_embed. cbn. rewrite loop_last_foldl. cbn [loop_last].
    rewrite lookup_overwrite by done. by rewrite (dict_elem_of_get _ _ _ Hnd Hin). }
  assert (Hsubs : subscriptions (build_embed stock now bot).2 = subscriptions bot)
    by done.
  rewrite Hsubs.
  destruct (decide (notifies _ cat items)) as [Hn | Hn];
    destruct (decide (cat ∈ always_notify)) as [Hd | Hd]; try done.
  - by destruct Hn.
  - destruct Hn. by left.
Qed.

Lemma build_embed_again_witness :
  (build_embed Samples.stock1 Samples.noon
     (build_embed Samples.stock1 Samples.noon Samples.bot0).2).1.2 =
    [("Carrot Seed", ["<@42>"]); ("Rake", ["<@42>"; "<@7>"; "<@42>"; "<@7>"])].
Proof.
  refine (eq_trans (build_embed_again Samples.stock1 Samples.noon Samples.noon
                      Samples.bot0 _) _).
  - apply (bool_decide_unpack _). vm_compute. exact I.
  - vm_compute. reflexivity.
Defined.

Lemma loop_fields_foldl subs stock : ∀ st,
  loop_fields (foldl (build_embed_step subs) st stock) =
    loop_fields st ++ (embed_field <$> stock).
Proof.
  induction stock as [|[cat items] stock IH]; intros st.
  - cbn. by rewrite app_nil_r.
  - cbn [foldl]. rewrite IH. cbn. rewrite <- app_assoc. do 3 f_equal.
    assert (Hlines : ((λ '(n, q), n +:+ ": " +:+ q) <$> items) = item_line <$> items)
      by (apply list_fmap_ext; by intros i [n q] _).
    by rewrite Hlines.
Qed.

Lemma join_lines_nonempty (items : list item) :
  items ≠ [] → Str.join nl (item_line <$> items) ≠ "".
Proof.
  destruct items as [|[n q] items]; [done |]. intros _.
  rewrite fmap_cons. unfold item_line at 1. cbn [fst snd Str.join].
  destruct (item_line <$> items); destruct n; done.
Qed.

(** X14.  The embed has one field for every category, in the order of
    the stock; and when no category is empty, as in every scraped stock,
    each field is the list of its item lines: the "No items" marker is
    not used. *)
Theorem build_embed_fields (stock : stock_t) (now : datetime) (bot : bot_state) :
  Dict.keys (embed_fields (build_embed stock now bot).1.1) = Dict.keys stock ∧
  ((∀ cat items, (cat, items) ∈ stock → items ≠ []) →
   embed_fields (build_embed stock now bot).1.1 =
     (λ e, (e.1, Str.join nl (item_line <$> e.2))) <$> stock).
Proof.
  unfold build_embed. cbn [fst snd embed_fields]. rewrite loop_fields_foldl.
  cbn [loop_fields app]. split.
  - unfold Dict.keys. rewrite <- list_fmap_compose. apply list_fmap_ext.
    by intros i [cat items] _.
  - intros Hne. apply list_fmap_ext. intros i [cat items] Hi.
    unfold embed_field. cbn [fst snd]. f_equal.
    apply decide_False, join_lines_nonempty, (Hne cat).
    by eapply list_elem_of_lookup_2.
Qed.

Lemma build_embed_fields_witness :
  embed_fields (build_embed Samples.stock1 Samples.noon Samples.bot0).1.1 =
    (λ e, (e.1, Str.join nl (item_line <$> e.2))) <$> Samples.stock1.
Proof.
  apply (build_embed_fields Samples.stock1 Samples.noon Samples.bot0).
  assert (HF : Forall (λ e : string * list item, e.2 ≠ []) Samples.stock1)
    by (apply (bool_decide_unpack _); vm_compute; exact I).
  intros cat items Hin. exact (proj1 (Forall_forall _ _) HF (cat, items) Hin).
Defined.

End MentionFacts.

(** ** What a publication sends *)

Section PublishFacts.

Lemma build_embed_known (stock : stock_t) (now : datetime) (bot : bot_state)
    (known : gset string) :
  (build_embed stock now
     {| subscriptions := subscriptions bot; known_items := known;
        current_interval := current_interval bot;
        last_snapshot := last_snapshot bot;
        autoscrape_enabled := autoscrape_enabled bot |}).1
  = (build_embed stock now bot).1.
Proof. reflexivity. Qed.

Lemma publish_world (stock : stock_t) (now : datetime) (channel : Z)
    (bot : bot_state) (w : world) :
  (publish stock now channel bot w).2 =
    {| network := network w; fetched := fetched w;
       trace := trace w ++
         (if decide ((build_embed stock now bot).1.2 = []) then []
          else [EvSend channel
                  (Text (Str.join nl (alert_line <$> (build_embed stock now bot).1.2)))])
         ++ [EvSend channel (Rich (build_embed stock now bot).1.1)] |}.
Proof.
  pose proof (build_embed_proper stock now bot) as Hproper.
  pose proof (alert_messages_proper _ _ Hproper) as Halerts.
  unfold publish.
  pose proof (build_embed_known stock now bot (item_names stock)) as Hknown.
  destruct (build_embed stock now {| subscriptions := subscriptions bot;
              known_items := item_names stock;
              current_interval := current_interval bot;
              last_snapshot := last_snapshot bot;
              autoscrape_enabled := autoscrape_enabled bot |})
    as [[embed mentions] bot'].
  cbn [fst snd] in Hknown. rewrite <- Hknown in *. cbn [fst snd] in *.
  rewrite Halerts.
  destruct (decide (mentions = [])) as [-> | Hne].
  - rewrite decide_False by (by intros ?). done.
  - rewrite decide_True by done.
    rewrite decide_True by (by destruct mentions).
    unfold await_send. cbn. by rewrite <- app_assoc.
Qed.

(** X15.  A publication sends the digest, one line for every key of
    [mentions], exactly when there is a mention, and then the embed;
    nothing else is sent, nothing is fetched, and nothing sent earlier
    is lost. *)
Theorem publish_trace (stock : stock_t) (now : datetime) (channel : Z)
    (bot : bot_state) (w : world) :
  trace (publish stock now channel bot w).2 =
    trace w ++
      (if decide ((build_embed stock now bot).1.2 = []) then []
       else [EvSend channel
               (Text (Str.join nl (alert_line <$> (build_embed stock now bot).1.2)))])
      ++ [EvSend channel (Rich (build_embed stock now bot).1.1)] ∧
  fetched (publish stock now channel bot w).2 = fetched w.
Proof. by rewrite publish_world. Qed.

Lemma after_attempts_0 (delay : Z) (w : world) :
  after_attempts delay w 0 = (await_scrape w).2.
Proof.
  unfold after_attempts, await_scrape. cbn. f_equal. lia.
Qed.

(** X16.  When the page can be scraped at the first attempt, a manual
    scrape and a pass of the polling loop leave the same state and send
    the same messages to the channel. *)
Theorem manual_scrape_as_poll (OWNER_ID : string) (now : datetime) (channel : Z)
    (bot : bot_state) (w : world) (stock : stock_t) :
  (scrape_garden_stock (network w (fetched w))).1 = Some stock →
  (manual_scrape now (Some channel) bot w).1 =
    polling_loop_iteration OWNER_ID now (Some channel) bot w.
Proof.
  intros Hok. unfold polling_loop_iteration.
  rewrite (scrape_with_retries_success w 0 stock); [| lia | lia |].
  - rewrite after_attempts_0. unfold manual_scrape, await_scrape. cbn [snd].
    destruct (scrape_garden_stock _) as [[s|] e]; cbn in Hok; simplify_eq.
    by destruct (publish _ _ _ _ _).
  - unfold outcome. by rewrite Nat.add_0_r.
Qed.

Lemma manual_scrape_as_poll_witness :
  (manual_scrape Samples.noon (Some 7%Z) Samples.bot0
     (mk_world (λ _, Response 200 Samples.page_ok) 0 [])).1 =
  polling_loop_iteration "1" Samples.noon (Some 7%Z) Samples.bot0
     (mk_world (λ _, Response 200 Samples.page_ok) 0 []).
Proof.
  apply (manual_scrape_as_poll "1" Samples.noon 7 Samples.bot0
           (mk_world (λ _, Response 200 Samples.page_ok) 0 []) Samples.stock_ok).
  vm_compute. reflexivity.
Defined.

(** X17.  A manual scrape fetches the page once and never sleeps,
    whatever the answer, and not at all without a channel; when the
    fetch fails the state of the bot is left as it was. *)
Theorem manual_scrape_single_attempt (now : datetime) (channel : option Z)
    (bot : bot_state) (w : world) :
  fetched (manual_scrape now channel bot w).1.2 =
    fetched w + match channel with Some _ => 1 | None => 0 end ∧
  (∀ s, EvSleep s ∈ trace (manual_scrape now channel bot w).1.2 →
        EvSleep s ∈ trace w) ∧
  ((scrape_garden_stock (network w (fetched w))).1 = None →
   (manual_scrape now channel bot w).1.1 = bot).
Proof.
  unfold manual_scrape. destruct channel as [channel|].
  - unfold await_scrape.
    destruct (scrape_garden_stock _) as [[stock|] error]; cbn [fst snd].
    + pose proof (publish_world stock now channel bot
                    {| network := network w; fetched := S (fetched w);
                       trace := trace w ++ [EvScrape] |}) as Hw.
      destruct (publish _ _ _ _ _) as [bot' w']. cbn [fst snd] in *. subst w'.
      cbn [fetched trace]. split; [lia |]. split; [| done].
      intros s He. rewrite !elem_of_app in He.
      destruct He as [[He | He] | [He | He]]; [done | ..].
      * by apply list_elem_of_singleton in He.
      * case_decide; [by apply elem_of_nil in He |].
        by apply list_elem_of_singleton in He.
      * by apply list_elem_of_singleton in He.
    + cbn. split; [lia |]. split; [| done].
      intros s He. rewrite !elem_of_app in He.
      destruct He as [[He | He] | He]; [done | ..];
        by apply list_elem_of_singleton in He.
  - cbn. split; [lia |]. by split.
Qed.

End PublishFacts.

(** ** Subscribing and unsubscribing *)

Section SubsFacts.

Variable ratio : string → string → Q.

Implicit Types (known : gset string) (st : sub_loop) (raw want : string).

Lemma register_chosen st want (s0 : list string) :
  subs st = s0 ++ chosen st →
  subs (register st want) = s0 ++ chosen (register st want).
Proof.
  intros Hst. unfold register. destruct (existsb _ _); cbn; [done |].
  by rewrite Hst, <- app_assoc.
Qed.

Lemma subscribe_steps_chosen known (s0 : list string) pieces : ∀ st,
  subs st = s0 ++ chosen st →
  subs (foldl (subscribe_step ratio known) st pieces) =
    s0 ++ chosen (foldl (subscribe_step ratio known) st pieces).
Proof.
  induction pieces as [|raw pieces IH]; intros st Hst; [done |].
  cbn [foldl]. apply IH. unfold subscribe_step. case_decide; [done |].
  destruct (resolve _ _ _ _) as [want warned]. by apply register_chosen.
Qed.

(** X18.  A subscription only appends: the caller's list after the
    command is the list before it followed by the items the reply
    announces, an entry is made for a caller who had none, and the
    lists of the other users and the order of the table are left as they
    were. *)
Theorem subscribe_appends (uid items : string) (bot : bot_state) :
  Dict.get uid (subscriptions (subscribe ratio uid items bot).1) =
    Some (default [] (Dict.get uid (subscriptions bot)) ++
          chosen (subscribe_loop ratio (known_items bot)
                    (default [] (Dict.get uid (subscriptions bot))) items)) ∧
  (∀ u, u ≠ uid →
     Dict.get u (subscriptions (subscribe ratio uid items bot).1) =
       Dict.get u (subscriptions bot)) ∧
  Dict.keys (subscriptions (subscribe ratio uid items bot).1) =
    if decide (uid ∈ Dict.keys (subscriptions bot))
    then Dict.keys (subscriptions bot)
    else Dict.keys (subscriptions bot) ++ [uid].
Proof.
  unfold subscribe. cbn [fst subscriptions]. split; [| split].
  - rewrite dict_get_set, decide_True by done. f_equal.
    unfold subscribe_loop. apply subscribe_steps_chosen. cbn. by rewrite app_nil_r.
  - intros u Hu. by rewrite dict_get_set, decide_False.
  - apply dict_keys_set.
Qed.

Lemma append_cons (c : ascii) (s t : string) :
  String c s +:+ t = String c (s +:+ t).
Proof. reflexivity. Qed.

Lemma join_head (sep x : string) (rest : list string) :
  ∃ tail, Str.join sep (x :: rest) = x +:+ tail.
Proof.
  destruct rest as [|y rest].
  - exists "". cbn. induction x as [|c x IH]; [done |].
    rewrite append_cons. by f_equal.
  - by exists (sep +:+ Str.join sep (y :: rest)).
Qed.

Lemma register_warn st want :
  Forall plain_head (warn st) → Forall plain_head (warn (register st want)).
Proof.
  intros Hst. unfold register. destruct (existsb _ _); cbn; [| done].
  apply Forall_app. split; [done |]. apply Forall_singleton.
  eexists. right. reflexivity.
Qed.

Lemma subscribe_step_warn known st raw :
  Forall plain_head (warn st) →
  Forall plain_head (warn (subscribe_step ratio known st raw)).
Proof.
  intros Hst. unfold subscribe_step. case_decide; [done |].
  destruct (resolve _ _ _ _) as [want warned] eqn:Hres. apply register_warn. cbn.
  apply Forall_app. split; [done |].
  unfold resolve in Hres. case_decide; [| by simplify_eq].
  destruct (get_close_matches _ _ _ _); simplify_eq; [| done].
  apply Forall_singleton. eexists. left. reflexivity.
Qed.

Lemma subscribe_steps_warn known pieces : ∀ st,
  Forall plain_head (warn st) →
  Forall plain_head (warn (foldl (subscribe_step ratio known) st pieces)).
Proof.
  induction pieces as [|raw pieces IH]; intros st Hst; [done |].
  cbn [foldl]. by apply IH, subscribe_step_warn.
Qed.

Lemma register_grows st want :
  chosen (register st want) ≠ [] ∨ warn (register st want) ≠ [].
Proof.
  unfold register. destruct (existsb _ _); cbn.
  - right. by destruct (warn st).
  - left. by destruct (chosen st).
Qed.

Lemma subscribe_step_keeps known st raw :
  chosen st ≠ [] ∨ warn st ≠ [] →
  chosen (subscribe_step ratio known st raw) ≠ [] ∨
  warn (subscribe_step ratio known st raw) ≠ [].
Proof.
  intros Hst. unfold subscribe_step. case_decide; [done |].
  destruct (resolve _ _ _ _) as [want warned]. apply register_grows.
Qed.

Lemma subscribe_steps_keeps known pieces : ∀ st,
  chosen st ≠ [] ∨ warn st ≠ [] →
  chosen (foldl (subscribe_step ratio known) st pieces) ≠ [] ∨
  warn (foldl (subscribe_step ratio known) st pieces) ≠ [].
Proof.
  induction pieces as [|raw pieces IH]; intros st Hst; [done |].
  cbn [foldl]. by apply IH, subscribe_step_keeps.
Qed.

Lemma subscribe_steps_blank known pieces : ∀ st,
  Forall (λ raw, Str.strip raw = "") pieces →
  foldl (subscribe_step ratio known) st pieces = st.
Proof.
  induction pieces as [|raw pieces IH]; intros st Hall; [done |].
  apply Forall_cons in Hall as [Hraw Hall]. cbn [foldl].
  unfold subscribe_step at 2. rewrite decide_True by done. by apply IH.
Qed.

Lemma subscribe_steps_answer known pieces : ∀ st,
  Exists (λ raw, Str.strip raw ≠ "") pieces →
  chosen (foldl (subscribe_step ratio known) st pieces) ≠ [] ∨
  warn (foldl (subscribe_step ratio known) st pieces) ≠ [].
Proof.
  induction pieces as [|raw pieces IH]; intros st Hex;
    [by apply Exists_nil in Hex |].
  cbn [foldl]. destruct (decide (Str.strip raw = "")) as [Hblank | Hne].
  - apply IH. by apply Exists_cons in Hex as [? | ?].
  - apply subscribe_steps_keeps. unfold subscribe_step.
    rewrite decide_False by done.
    destruct (resolve _ _ _ _) as [want warned]. apply register_grows.
Qed.

(** X19.  [subscribe] answers "No valid items to subscribe." exactly
    when every piece of the input is blank, and the caller's list is
    then what it was. *)
Theorem subscribe_blank_reply (uid items : string) (bot : bot_state) :
  ((subscribe ratio uid items bot).2 = "⚠️ No valid items to subscribe." ↔
   ∀ raw, raw ∈ Str.split_comma items → Str.strip raw = "") ∧
  ((∀ raw, raw ∈ Str.split_comma items → Str.strip raw = "") →
   Dict.get uid (subscriptions (subscribe ratio uid items bot).1) =
     Some (default [] (Dict.get uid (subscriptions bot)))).
Proof.
  assert (Hblank : (∀ raw, raw ∈ Str.split_comma items → Str.strip raw = "") →
            subscribe_loop ratio (known_items bot)
              (default [] (Dict.get uid (subscriptions bot))) items =
            mk_sub_loop (default [] (Dict.get uid (subscriptions bot))) [] []).
  { intros Hall. apply subscribe_steps_blank. by apply Forall_forall. }
  split; [split |].
  - intros Hreply.
    destruct (decide (Forall (λ raw, Str.strip raw = "") (Str.split_comma items)))
      as [Hall | Hnot]; [by apply Forall_forall |].
    exfalso. apply not_Forall_Exists in Hnot; [| apply _].
    pose proof (subscribe_steps_warn (known_items bot) (Str.split_comma items)
      (mk_sub_loop (default [] (Dict.get uid (subscriptions bot))) [] [])
      (Forall_nil_2 _)) as Hwarn.
    pose proof (subscribe_steps_answer (known_items bot) (Str.split_comma items)
      (mk_sub_loop (default [] (Dict.get uid (subscriptions bot))) [] [])
      Hnot) as Hanswer.
    revert Hreply. unfold subscribe, subscribe_loop. cbn [snd].
    destruct (foldl _ _ _) as [subs1 chosen1 warn1]. cbn [chosen warn] in *.
    destruct (decide (chosen1 ≠ [])) as [Hchosen | Hchosen].
    + rewrite decide_True by done. cbn [app].
      destruct (join_head nl ("✅ Subscribed to: " +:+ Str.join ", " (bold <$> chosen1))
                  warn1) as [tail ->].
      rewrite !append_cons. congruence.
    + destruct Hanswer as [? | Hne]; [done |].
      destruct warn1 as [|x warn1]; [done |]. cbn [app].
      rewrite decide_True by done.
      apply Forall_cons in Hwarn as [(t & [-> | ->]) _];
        destruct (join_head nl (String "N" t) warn1) as [tail1 Htail1];
        destruct (join_head nl (String "A" t) warn1) as [tail2 Htail2];
        rewrite ?Htail1, ?Htail2, !append_cons; congruence.
  - intros Hall. unfold subscribe. cbn [snd]. rewrite (Hblank Hall). cbn.
    by rewrite decide_False by (by intros ?).
  - intros Hall. unfold subscribe. cbn [fst subscriptions].
    rewrite dict_get_set, decide_True by done. by rewrite (Hblank Hall).
Qed.

End SubsFacts.

Section UnsubFacts.

Implicit Types (st : unsub_loop) (raw want : string) (l : list string).

Lemma first_match_Some want l ex :
  first_match want l = Some ex → ex ∈ l ∧ Str.lower ex = Str.lower want.
Proof.
  unfold first_match. intros Hhead%head_Some_elem_of.
  by apply list_elem_of_filter in Hhead as [? ?].
Qed.

Lemma first_match_None want l : first_match want l = None → ¬ present l want.
Proof.
  unfold first_match. intros Hnil%head_None (i & Hin & Heq).
  assert (Hi : i ∈ filter (λ ex, Str.lower ex = Str.lower want) l)
    by (by apply list_elem_of_filter).
  rewrite Hnil in Hi. by apply elem_of_nil in Hi.
Qed.

Lemma list_remove_perm (x : string) l : x ∈ l → l ≡ₚ x :: list_remove x l.
Proof.
  induction l as [|y l IH]; intros Hin; [by apply elem_of_nil in Hin |].
  cbn. case_decide; [by subst |].
  apply elem_of_cons in Hin as [-> | Hin]; [done |].
  rewrite (IH Hin) at 1. apply Permutation_swap.
Qed.

Lemma list_remove_sublist (x : string) l : list_remove x l `sublist_of` l.
Proof.
  induction l as [|y l IH]; cbn; [done |].
  case_decide; [by apply sublist_cons | by apply sublist_skip].
Qed.

Lemma unsubscribe_step_sublist st raw :
  remaining (unsubscribe_step st raw) `sublist_of` remaining st.
Proof.
  unfold unsubscribe_step. destruct (first_match _ _); cbn; [| done].
  apply list_remove_sublist.
Qed.

Lemma unsubscribe_step_perm st raw :
  remaining (unsubscribe_step st raw) ++ removed (unsubscribe_step st raw)
    ≡ₚ remaining st ++ removed st.
Proof.
  unfold unsubscribe_step. destruct (first_match _ _) as [ex|] eqn:Hm; cbn; [| done].
  apply first_match_Some in Hm as [Hin _].
  rewrite (list_remove_perm ex (remaining st) Hin) at 2.
  rewrite (Permutation_app_comm (removed st) [ex]), app_assoc.
  rewrite (Permutation_app_comm _ [ex]). done.
Qed.

Lemma unsubscribe_steps_spec pieces : ∀ st,
  remaining (foldl unsubscribe_step st pieces) `sublist_of` remaining st ∧
  remaining (foldl unsubscribe_step st pieces) ++
    removed (foldl unsubscribe_step st pieces) ≡ₚ remaining st ++ removed st.
Proof.
  induction pieces as [|raw pieces IH]; intros st; [done |].
  cbn [foldl]. destruct (IH (unsubscribe_step st raw)) as [Hsub Hperm]. split.
  - etrans; [exact Hsub | apply unsubscribe_step_sublist].
  - etrans; [exact Hperm | apply unsubscribe_step_perm].
Qed.

(** X20.  Unsubscribing only takes entries away: what is left of the
    caller's list is the old list without the removed entries, in the
    old order; no entry is made for a caller who had none, and the lists
    of the other users and the keys of the table are left as they
    were. *)
Theorem unsubscribe_removes (uid items : string) (bot : bot_state) :
  default [] (Dict.get uid (subscriptions (unsubscribe uid items bot).1))
    `sublist_of` default [] (Dict.get uid (subscriptions bot)) ∧
  default [] (Dict.get uid (subscriptions (unsubscribe uid items bot).1)) ++
    removed (unsubscribe_loop (default [] (Dict.get uid (subscriptions bot))) items)
    ≡ₚ default [] (Dict.get uid (subscriptions bot)) ∧
  (∀ u, u ≠ uid →
     Dict.get u (subscriptions (unsubscribe uid items bot).1) =
       Dict.get u (subscriptions bot)) ∧
  Dict.keys (subscriptions (unsubscribe uid items bot).1) =
    Dict.keys (subscriptions bot).
Proof.
  pose proof (unsubscribe_steps_spec (Str.split_comma items)
    (mk_unsub_loop (default [] (Dict.get uid (subscriptions bot))) [] []))
    as [Hsub Hperm].
  cbn [remaining removed] in Hsub, Hperm. rewrite app_nil_r in Hperm.
  unfold unsubscribe. cbn [fst subscriptions]. fold (unsubscribe_loop
    (default [] (Dict.get uid (subscriptions bot))) items) in *.
  destruct (Dict.get uid (subscriptions bot)) as [subs0|] eqn:Hget; cbn [default] in *.
  - rewrite dict_get_set, decide_True by done. cbn [default].
    split; [done |]. split; [done |]. split.
    + intros u Hu. by rewrite dict_get_set, decide_False.
    + rewrite dict_keys_set. apply decide_True.
      destruct (decide (uid ∈ Dict.keys (subscriptions bot))) as [? | Hnot]; [done |].
      apply dict_get_None in Hnot. congruence.
  - rewrite Hget. cbn [default]. apply sublist_nil_r in Hsub.
    rewrite Hsub in Hperm. cbn [app] in Hperm.
    split; [done |]. split; [exact Hperm |]. by split.
Qed.

Lemma split_comma_aux_length (s : string) : ∀ cur,
  0 < length (Str.split_comma_aux cur s).
Proof.
  induction s as [|c s IH]; intros cur; cbn; [lia |].
  destruct (Ascii.eqb c ","); cbn; [lia | apply IH].
Qed.

Lemma unsubscribe_step_count st raw :
  length (removed (unsubscribe_step st raw)) +
    length (unsub_warn (unsubscribe_step st raw)) =
  S (length (removed st) + length (unsub_warn st)).
Proof.
  unfold unsubscribe_step. destruct (first_match _ _); cbn;
    rewrite length_app; cbn; lia.
Qed.

Lemma unsubscribe_steps_count pieces : ∀ st,
  length (removed (foldl unsubscribe_step st pieces)) +
    length (unsub_warn (foldl unsubscribe_step st pieces)) =
  length pieces + (length (removed st) + length (unsub_warn st)).
Proof.
  induction pieces as [|raw pieces IH]; intros st; [done |].
  cbn [foldl]. rewrite IH, unsubscribe_step_count. cbn. lia.
Qed.

Lemma unsubscribe_steps_warn pieces : ∀ st,
  Forall plain_head (unsub_warn st) →
  Forall plain_head (unsub_warn (foldl unsubscribe_step st pieces)).
Proof.
  induction pieces as [|raw pieces IH]; intros st Hst; [done |].
  cbn [foldl]. apply IH. unfold unsubscribe_step.
  destruct (first_match _ _); cbn; [done |].
  apply Forall_app. split; [done |]. apply Forall_singleton.
  eexists. left. reflexivity.
Qed.

(** X21.  Every piece of the input of [unsubscribe], blank ones
    included, ends up either among the removed entries or among the
    "Not subscribed" warnings; the reply is therefore never
    "No valid items to unsubscribe.". *)
Theorem unsubscribe_reply (uid items : string) (bot : bot_state) :
  length (removed (unsubscribe_loop (default [] (Dict.get uid (subscriptions bot))) items)) +
    length (unsub_warn (unsubscribe_loop (default [] (Dict.get uid (subscriptions bot))) items))
    = length (Str.split_comma items) ∧
  0 < length (Str.split_comma items) ∧
  (unsubscribe uid items bot).2 ≠ "⚠️ No valid items to unsubscribe.".
Proof.
  pose proof (unsubscribe_steps_count (Str.split_comma items)
    (mk_unsub_loop (default [] (Dict.get uid (subscriptions bot))) [] [])) as Hcount.
  pose proof (unsubscribe_steps_warn (Str.split_comma items)
    (mk_unsub_loop (default [] (Dict.get uid (subscriptions bot))) [] [])
    (Forall_nil_2 _)) as Hwarn.
  pose proof (split_comma_aux_length items "") as Hlen.
  fold (Str.split_comma items) in Hlen. cbn [removed unsub_warn length] in Hcount.
  unfold unsubscribe_loop. split; [lia |]. split; [done |].
  unfold unsubscribe, unsubscribe_loop. cbn [snd].
  destruct (foldl _ _ _) as [remaining1 removed1 warn1].
  cbn [removed unsub_warn] in *.
  destruct (decide (removed1 ≠ [])) as [Hremoved | Hremoved].
  - rewrite decide_True by done. cbn [app].
    destruct (join_head nl ("❌ Unsubscribed: " +:+ Str.join ", " (bold <$> removed1))
                warn1) as [tail ->].
    rewrite !append_cons. congruence.
  - destruct warn1 as [|x warn1].
    { destruct removed1; [cbn in Hcount; lia | by destruct Hremoved]. }
    cbn [app]. rewrite decide_True by done.
    apply Forall_cons in Hwarn as [(t & [-> | ->]) _];
      destruct (join_head nl (String "N" t) warn1) as [tail1 Htail1];
      destruct (join_head nl (String "A" t) warn1) as [tail2 Htail2];
      rewrite ?Htail1, ?Htail2, !append_cons; congruence.
Qed.

Lemma list_remove_lower (x : string) l i :
  NoDup (Str.lower <$> l) → x ∈ l → i ∈ list_remove x l →
  Str.lower i ≠ Str.lower x.
Proof.
  induction l as [|y l IH]; cbn; [intros _ Hx; by apply elem_of_nil in Hx |].
  intros [Hnotin Hnd]%NoDup_cons Hx Hi. case_decide as Hy.
  - subst y. intros Heq. apply Hnotin. rewrite <- Heq.
    apply list_elem_of_fmap. by exists i.
  - apply elem_of_cons in Hx as [-> | Hx]; [done |].
    apply elem_of_cons in Hi as [-> | Hi]; [| by apply IH].
    intros Heq. apply Hnotin. rewrite Heq. apply list_elem_of_fmap. by exists x.
Qed.

Lemma sublist_lower_NoDup l1 l2 :
  l1 `sublist_of` l2 → NoDup (Str.lower <$> l2) → NoDup (Str.lower <$> l1).
Proof.
  intros Hsub Hnd. apply (sublist_NoDup _ (Str.lower <$> l2)); [done | by apply fmap_sublist].
Qed.

Lemma present_sublist l1 l2 want :
  l1 `sublist_of` l2 → present l1 want → present l2 want.
Proof.
  intros Hsub (i & Hin & Heq). exists i. split; [| done]. by eapply elem_of_sublist.
Qed.

Lemma unsubscribe_step_absent st raw :
  NoDup (Str.lower <$> remaining st) →
  ¬ present (remaining (unsubscribe_step st raw)) (Str.strip raw).
Proof.
  intros Hnd. unfold unsubscribe_step.
  destruct (first_match _ _) as [ex|] eqn:Hm; cbn.
  - apply first_match_Some in Hm as [Hin Hex]. intros (i & Hi & Heq).
    apply (list_remove_lower ex (remaining st) i Hnd Hin Hi). congruence.
  - by apply first_match_None.
Qed.

Lemma unsubscribe_steps_absent pieces : ∀ st,
  NoDup (Str.lower <$> remaining st) →
  ∀ raw, raw ∈ pieces →
    ¬ present (remaining (foldl unsubscribe_step st pieces)) (Str.strip raw).
Proof.
  induction pieces as [|p pieces IH]; intros st Hnd raw Hraw;
    [by apply elem_of_nil in Hraw |].
  cbn [foldl].
  assert (Hnd' : NoDup (Str.lower <$> remaining (unsubscribe_step st p))).
  { eapply sublist_lower_NoDup; [apply unsubscribe_step_sublist | done]. }
  apply elem_of_cons in Hraw as [-> | Hraw]; [| by apply IH].
  intros Hin. apply (unsubscribe_step_absent st p Hnd).
  eapply present_sublist; [| exact Hin].
  apply (unsubscribe_steps_spec pieces (unsubscribe_step st p)).
Qed.

(** X22.  When no two entries of the caller's list are equal up to
    case, as in every list [subscribe] has built, no item named in the
    command is left in the list, whatever the case it was named in, and
    the list still has no two entries equal up to case.  *)
Theorem unsubscribe_absent (uid items : string) (bot : bot_state) :
  NoDup (Str.lower <$> default [] (Dict.get uid (subscriptions bot))) →
  (∀ raw, raw ∈ Str.split_comma items →
     ¬ present (default [] (Dict.get uid (subscriptions (unsubscribe uid items bot).1)))
               (Str.strip raw)) ∧
  NoDup (Str.lower <$>
         default [] (Dict.get uid (subscriptions (unsubscribe uid items bot).1))).
Proof.
  intros Hnd.
  assert (Hnew : default [] (Dict.get uid (subscriptions (unsubscribe uid items bot).1))
                 = remaining (unsubscribe_loop
                     (default [] (Dict.get uid (subscriptions bot))) items)).
  { unfold unsubscribe. cbn [fst subscriptions].
    destruct (Dict.get uid (subscriptions bot)) as [subs0|] eqn:Hget.
    - by rewrite dict_get_set, decide_True.
    - rewrite Hget. cbn [default].
      pose proof (unsubscribe_steps_spec (Str.split_comma items)
                    (mk_unsub_loop [] [] [])) as [Hsub _].
      cbn [remaining] in Hsub. apply sublist_nil_r in Hsub.
      unfold unsubscribe_loop. by rewrite Hsub. }
  rewrite Hnew. split.
  - intros raw Hraw. by apply unsubscribe_steps_absent.
  - eapply sublist_lower_NoDup; [| exact Hnd].
    apply (unsubscribe_steps_spec (Str.split_comma items)
             (mk_unsub_loop (default [] (Dict.get uid (subscriptions bot))) [] [])).
Qed.

End UnsubFacts.

Section RoundTrip.

Variable ratio : string → string → Q.

Implicit Types (known : gset string) (raw want : string) (l : list string).

Lemma first_match_app_new want l ex :
  ¬ present l want → Str.lower ex = Str.lower want →
  first_match want (l ++ [ex]) = Some ex.
Proof.
  intros Hnot Hex. unfold first_match. rewrite filter_app.
  assert (Hnil : filter (λ i, Str.lower i = Str.lower want) l = []).
  { destruct (filter _ l) as [|i rest] eqn:Hf; [done |]. exfalso. apply Hnot.
    assert (Hi : i ∈ filter (λ i, Str.lower i = Str.lower want) l)
      by (rewrite Hf; left).
    apply list_elem_of_filter in Hi as [? ?]. by exists i. }
  rewrite Hnil. cbn [app]. by rewrite filter_cons_True.
Qed.

Lemma list_remove_app_new (x : string) l : x ∉ l → list_remove x (l ++ [x]) = l.
Proof.
  induction l as [|y l IH]; intros Hnot; cbn.
  - by rewrite decide_True.
  - apply not_elem_of_cons in Hnot as [Hne Hnot].
    rewrite decide_False by done. by rewrite IH.
Qed.

(** X23.  Subscribing to one item that was not in the caller's list and
    then unsubscribing from it, named in any letter case, gives back the
    state the bot had before: the entry stored is the one removed. *)
Theorem subscribe_then_unsubscribe (uid items again : string) (bot : bot_state)
    (subs0 : list string) :
  Dict.get uid (subscriptions bot) = Some subs0 →
  Str.split_comma items = [items] → Str.strip items ≠ "" →
  ¬ present subs0 (resolved ratio (known_items bot) items) →
  Str.split_comma again = [again] →
  Str.lower (Str.strip again) = Str.lower (resolved ratio (known_items bot) items) →
  (unsubscribe uid again (subscribe ratio uid items bot).1).1 = bot.
Proof.
  intros Hget Hsplit Hne Hnot Hsplit' Hagain.
  set (want := resolved ratio (known_items bot) items) in *.
  assert (Hsubs : subs (subscribe_loop ratio (known_items bot) subs0 items)
                  = subs0 ++ [want]).
  { unfold subscribe_loop. rewrite Hsplit. cbn [foldl].
    rewrite (subscribe_step_register _ _ _ _ Hne). fold want.
    by rewrite register_absent. }
  unfold subscribe. cbn [fst]. rewrite Hget. cbn [default id]. rewrite Hsubs.
  unfold unsubscribe. cbn [fst subscriptions known_items current_interval
    last_snapshot autoscrape_enabled].
  rewrite dict_get_set, decide_True by done. cbn [default id].
  unfold unsubscribe_loop. rewrite Hsplit'. cbn [foldl]. unfold unsubscribe_step.
  cbn [remaining]. rewrite (first_match_app_new _ _ want).
  - cbn [remaining]. rewrite list_remove_app_new.
    + rewrite dict_set_set, dict_set_id by done. by destruct bot.
    + intros Hin. apply Hnot. by exists want.
  - intros (i & Hi & Heq). apply Hnot. exists i. split; [done | congruence].
  - done.
Qed.

(** X24.  A piece that is the exact name of a known item stands for
    this very name, with no warning, provided the name scores at least
    0.6 against itself and every other known item scores lower. *)
Theorem subscribe_exact_name known (st : sub_loop) raw :
  Str.strip raw ≠ "" →
  Str.strip raw ∈ known →
  (6 # 10 <= ratio (Str.strip raw) (Str.strip raw))%Q →
  (∀ y, y ∈ known → y ≠ Str.strip raw →
     (ratio y (Str.strip raw) < ratio (Str.strip raw) (Str.strip raw))%Q) →
  subscribe_step ratio known st raw = register st (Str.strip raw).
Proof.
  intros Hne Hin Hself Hothers.
  assert (Hres : resolve ratio known raw (Str.strip raw) = (Str.strip raw, [])).
  { unfold resolve. rewrite decide_True by set_solver.
    destruct (get_close_matches_spec ratio (Str.strip raw) known (6 # 10))
      as [[_ Hall] | (m & -> & Hm & _ & Hbest)].
    - exfalso. apply (Qlt_not_le _ _ (Hall _ Hin)). exact Hself.
    - destruct (decide (m = Str.strip raw)) as [-> | Hm']; [done |].
      exfalso. apply (Qlt_not_le _ _ (Hothers m Hm Hm')). by apply Hbest. }
  rewrite (subscribe_step_register _ _ _ _ Hne). unfold resolved.
  rewrite Hres. cbn [fst snd]. rewrite app_nil_r. by destruct st.
Qed.

(** X25.  What [list_subs] answers after the two other commands: after
    a subscription, the old entries followed by the chosen ones; after
    [unsubscribe] by a caller without an entry, that there are no
    subscriptions. *)
Theorem list_subs_after (uid items : string) (bot : bot_state) :
  list_subs uid (subscribe ratio uid items bot).1 =
    (let l := default [] (Dict.get uid (subscriptions bot)) ++
              chosen (subscribe_loop ratio (known_items bot)
                        (default [] (Dict.get uid (subscriptions bot))) items) in
     if decide (l = []) then "📭 You have no subscriptions."
     else "📦 Your subscriptions: " +:+ Str.join ", " (bold <$> l)) ∧
  (Dict.get uid (subscriptions bot) = None →
   list_subs uid (unsubscribe uid items bot).1 = "📭 You have no subscriptions.").
Proof.
  split.
  - pose proof (subscribe_steps_chosen ratio (known_items bot)
      (default [] (Dict.get uid (subscriptions bot))) (Str.split_comma items)
      (mk_sub_loop (default [] (Dict.get uid (subscriptions bot))) [] [])) as Hsubs.
    cbn [subs chosen] in Hsubs. rewrite app_nil_r in Hsubs.
    specialize (Hsubs eq_refl).
    fold (subscribe_loop ratio (known_items bot)
            (default [] (Dict.get uid (subscriptions bot))) items) in Hsubs.
    assert (Hget : Dict.get uid (subscriptions (subscribe ratio uid items bot).1) =
              Some (subs (subscribe_loop ratio (known_items bot)
                      (default [] (Dict.get uid (subscriptions bot))) items))).
    { unfold subscribe. cbn [fst subscriptions].
      by rewrite dict_get_set, decide_True. }
    unfold list_subs. rewrite Hget, Hsubs. cbn [default id]. cbn zeta.
    by repeat case_decide.
  - intros Hget. unfold list_subs, unsubscribe. cbn [fst subscriptions].
    rewrite !Hget. cbn [default]. by rewrite decide_False by (by intros ?).
Qed.

End RoundTrip.

Lemma subscribe_blank_reply_witness :
  (subscribe Difflib.ratio "42" " , " Samples.bot0).2
    = "⚠️ No valid items to subscribe." ∧
  Dict.get "42" (subscriptions (subscribe Difflib.ratio "42" " , " Samples.bot0).1)
    = Some ["carrot seed"; "Rake"].
Proof.
  assert (Hblank : ∀ raw, raw ∈ Str.split_comma " , " → Str.strip raw = "").
  { apply Forall_forall. apply (bool_decide_unpack _). vm_compute. exact I. }
  destruct (subscribe_blank_reply Difflib.ratio "42" " , " Samples.bot0)
    as [Hreply Hlist].
  split; [by apply Hreply | exact (Hlist Hblank)].
Defined.

Lemma unsubscribe_absent_witness :
  ¬ present (default [] (Dict.get "42"
       (subscriptions (unsubscribe "42" "CARROT SEED, xyz" Samples.bot0).1)))
     "CARROT SEED".
Proof.
  destruct (unsubscribe_absent "42" "CARROT SEED, xyz" Samples.bot0) as [Habsent _].
  - apply (bool_decide_unpack _). vm_compute. exact I.
  - apply (Habsent "CARROT SEED").
    apply list_elem_of_lookup. exists 0. vm_compute. reflexivity.
Defined.

Lemma subscribe_then_unsubscribe_witness :
  (unsubscribe "7" "TOMATO SEED"
     (subscribe Difflib.ratio "7" "tomato seed" Samples.bot0).1).1 = Samples.bot0.
Proof.
  apply (subscribe_then_unsubscribe Difflib.ratio "7" "tomato seed" "TOMATO SEED"
           Samples.bot0 ["RAKE"]).
  - reflexivity.
  - reflexivity.
  - vm_compute. discriminate.
  - intros (i & Hi & Heq). apply list_elem_of_singleton in Hi. subst i.
    vm_compute in Heq. discriminate.
  - reflexivity.
  - vm_compute. reflexivity.
Defined.

Lemma subscribe_exact_name_witness :
  subscribe_step Difflib.ratio {["Carrot Seed"; "Tomato Seed"]}
    (mk_sub_loop ["Rake"] [] []) " Carrot Seed"
  = mk_sub_loop ["Rake"; "Carrot Seed"] ["Carrot Seed"] [].
Proof.
  refine (eq_trans (subscribe_exact_name Difflib.ratio {["Carrot Seed"; "Tomato Seed"]}
                      (mk_sub_loop ["Rake"] [] []) " Carrot Seed" _ _ _ _) _).
  - vm_compute. discriminate.
  - apply (bool_decide_unpack _). vm_compute. exact I.
  - vm_compute. discriminate.
  - intros y Hy Hne. apply elem_of_union in Hy as [Hy | Hy];
      apply elem_of_singleton in Hy; subst y; [done |].
    vm_compute. reflexivity.
  - vm_compute. reflexivity.
Defined.

Lemma list_subs_after_witness :
  list_subs "9" (unsubscribe "9" "Rake" Samples.bot0).1
    = "📭 You have no subscriptions.".
Proof.
  apply (list_subs_after Difflib.ratio "9" "Rake" Samples.bot0). reflexivity.
Defined.

(** ** The output channel and the polling switch *)

Section ChannelFacts.

Lemma garden_channel_of_Some (g : guild_t) (c : channel_t) :
  garden_channel_of g = Some c ↔
  ∃ pre post, text_channels g = pre ++ c :: post ∧
              channel_name c = "growagarden" ∧
              ∀ c', c' ∈ pre → channel_name c' ≠ "growagarden".
Proof.
  unfold garden_channel_of. generalize (text_channels g). intros l. split.
  - induction l as [|x l IH]; [done |]. rewrite filter_cons.
    case_decide as Hx.
    + intros [= ->]. exists [], l. split; [done |]. split; [done |].
      intros c' Hc'. by apply elem_of_nil in Hc'.
    + intros (pre & post & -> & Hc & Hpre)%IH. exists (x :: pre), post.
      split; [done |]. split; [done |].
      intros c' [-> | Hc']%elem_of_cons; [done | by apply Hpre].
  - intros (pre & post & -> & Hc & Hpre).
    induction pre as [|x pre IH]; cbn [app]; rewrite filter_cons.
    + by rewrite decide_True.
    + rewrite decide_False by (apply Hpre; left). apply IH.
      intros c' Hc'. apply Hpre. by right.
Qed.

Lemma garden_channel_of_None (g : guild_t) :
  garden_channel_of g = None ↔
  ∀ c, c ∈ text_channels g → channel_name c ≠ "growagarden".
Proof.
  unfold garden_channel_of. rewrite head_None. split.
  - intros Hnil c Hc Hname.
    assert (Hin : c ∈ filter (λ c, channel_name c = "growagarden") (text_channels g))
      by (by apply list_elem_of_filter).
    rewrite Hnil in Hin. by apply elem_of_nil in Hin.
  - intros Hall. destruct (filter _ _) as [|c rest] eqn:Hf; [done |]. exfalso.
    assert (Hin : c ∈ filter (λ c, channel_name c = "growagarden") (text_channels g))
      by (rewrite Hf; left).
    apply list_elem_of_filter in Hin as [Hname Hc]. by apply (Hall c).
Qed.

Lemma first_garden_channel_Some (guilds : list guild_t) (c : channel_t) :
  first_garden_channel guilds = Some c →
  ∃ g, g ∈ guilds ∧ garden_channel_of g = Some c.
Proof.
  induction guilds as [|g guilds IH]; cbn; [done |].
  destruct (garden_channel_of g) as [c'|] eqn:Hg.
  - intros [= ->]. exists g. split; [left | done].
  - intros (g' & Hin & Hc)%IH. exists g'. split; [by right | done].
Qed.

Lemma first_garden_channel_None (guilds : list guild_t) :
  first_garden_channel guilds = None ↔
  ∀ g, g ∈ guilds → garden_channel_of g = None.
Proof.
  induction guilds as [|g guilds IH]; cbn.
  - split; [| done]. intros _ g Hg. by apply elem_of_nil in Hg.
  - destruct (garden_channel_of g) as [c'|] eqn:Hg.
    + split; [done |]. intros Hall. specialize (Hall g). rewrite Hg in Hall.
      apply Hall. left.
    + rewrite IH. split.
      * intros Hall g' [-> | Hg']%elem_of_cons; [done | by apply Hall].
      * intros Hall g' Hg'. apply Hall. by right.
Qed.

(** X26.  The channel [get_garden_channel] returns is named
    "growagarden" and is the first such channel of a guild it was asked
    to look at; the guild of the command is preferred to the others; and
    nothing is returned only when none of these guilds has a channel of
    that name. *)
Theorem get_garden_channel_spec (guilds : list guild_t) (guild : option guild_t) :
  (∀ c, get_garden_channel guilds guild = Some c →
     channel_name c = "growagarden" ∧
     ∃ g, searched guilds guild g ∧ garden_channel_of g = Some c) ∧
  (∀ g pre c post,
     guild = Some g → text_channels g = pre ++ c :: post →
     channel_name c = "growagarden" →
     (∀ c', c' ∈ pre → channel_name c' ≠ "growagarden") →
     get_garden_channel guilds guild = Some c) ∧
  (get_garden_channel guilds guild = None ↔
   ∀ g c, searched guilds guild g → c ∈ text_channels g →
          channel_name c ≠ "growagarden").
Proof.
  split; [| split].
  - intros c Hc.
    assert (Hg : ∃ g, searched guilds guild g ∧ garden_channel_of g = Some c).
    { unfold get_garden_channel in Hc. destruct guild as [g|].
      - destruct (garden_channel_of g) as [c'|] eqn:Hg.
        + simplify_eq. exists g. split; [by left | done].
        + apply first_garden_channel_Some in Hc as (g' & Hin & Hc).
          exists g'. split; [by right | done].
      - apply first_garden_channel_Some in Hc as (g' & Hin & Hc).
        exists g'. split; [by right | done]. }
    split; [| done]. destruct Hg as (g & _ & Hg).
    by apply garden_channel_of_Some in Hg as (pre & post & _ & Hname & _).
  - intros g pre c post -> Hsplit Hname Hpre. unfold get_garden_channel.
    assert (Hg : garden_channel_of g = Some c)
      by (apply garden_channel_of_Some; eauto).
    by rewrite Hg.
  - unfold get_garden_channel, searched. destruct guild as [g|].
    + destruct (garden_channel_of g) as [c'|] eqn:Hg.
      * split; [done |]. intros Hall. exfalso.
        apply garden_channel_of_Some in Hg as (pre & post & Hsplit & Hname & _).
        apply (Hall g c'); [by left | | done]. rewrite Hsplit.
        apply elem_of_app. right. left.
      * rewrite first_garden_channel_None. split.
        -- intros Hall g' c [[= <-] | Hg'] Hc.
           ++ by apply (proj1 (garden_channel_of_None g) Hg).
           ++ by apply (proj1 (garden_channel_of_None g') (Hall g' Hg')).
        -- intros Hall g' Hg'. apply garden_channel_of_None.
           intros c Hc. apply (Hall g' c); [by right | done].
    + rewrite first_garden_channel_None. split.
      * intros Hall g' c [? | Hg'] Hc; [done |].
        by apply (proj1 (garden_channel_of_None g') (Hall g' Hg')).
      * intros Hall g' Hg'. apply garden_channel_of_None.
        intros c Hc. apply (Hall g' c); [by right | done].
Qed.

Lemma get_garden_channel_spec_witness :
  get_garden_channel [MoreSamples.guild_c; MoreSamples.guild_b]
    (Some MoreSamples.guild_a) = Some (mk_channel 11 "growagarden").
Proof.
  apply (get_garden_channel_spec [MoreSamples.guild_c; MoreSamples.guild_b]
           (Some MoreSamples.guild_a))
    with (g := MoreSamples.guild_a) (pre := [mk_channel 10 "general"]) (post := []).
  - reflexivity.
  - reflexivity.
  - reflexivity.
  - intros c' Hc'. apply list_elem_of_singleton in Hc'. by subst c'.
Defined.

Lemma is_admin_authorised (ADMIN_ROLE_IDS : list Z) (user : member_t) :
  is_admin ADMIN_ROLE_IDS (Some user) = Ok true ↔ authorised ADMIN_ROLE_IDS user.
Proof.
  unfold is_admin, authorised.
  destruct (existsb _ (role_ids user)) eqn:Hex.
  - split; [| done]. intros _. left.
    apply existsb_exists in Hex as (r & Hr & Hin).
    exists r. split; [by apply list_elem_of_In | by apply bool_decide_eq_true in Hin].
  - split.
    + intros [= Hadmin]. by right.
    + intros [(r & Hr & Hin) | ->]; [| done]. exfalso.
      assert (Hex' : existsb (λ r, bool_decide (r ∈ ADMIN_ROLE_IDS)) (role_ids user) = true).
      { apply existsb_exists. exists r.
        split; [by apply list_elem_of_In | by apply bool_decide_eq_true]. }
      congruence.
Qed.

Lemma is_admin_unauthorised (ADMIN_ROLE_IDS : list Z) (user : member_t) :
  ¬ authorised ADMIN_ROLE_IDS user → is_admin ADMIN_ROLE_IDS (Some user) = Ok false.
Proof.
  intros Hnot. pose proof (is_admin_authorised ADMIN_ROLE_IDS user) as Hiff.
  unfold is_admin in *. destruct (existsb _ _); [by destruct Hnot; apply Hiff |].
  destruct (administrator user); [by destruct Hnot; apply Hiff | done].
Qed.

(** X27.  [autoscrape] obeys a caller who holds an admin role or the
    administrator permission, and then changes the polling switch and
    nothing else; any other caller is refused and the state is left as
    it was; and a command that did not come as an interaction raises
    before the caller is looked at. *)
Theorem autoscrape_admin_only (ADMIN_ROLE_IDS : list Z) (enable : bool)
    (now : datetime) (bot : bot_state) :
  (∀ user, authorised ADMIN_ROLE_IDS user →
     ∃ reply, autoscrape ADMIN_ROLE_IDS (Some user) enable now bot =
                Ok (with_autoscrape bot enable, reply) ∧ reply ≠ "❌ Admin only.") ∧
  (∀ user, ¬ authorised ADMIN_ROLE_IDS user →
     autoscrape ADMIN_ROLE_IDS (Some user) enable now bot = Ok (bot, "❌ Admin only.")) ∧
  (∃ msg, autoscrape ADMIN_ROLE_IDS None enable now bot = Raise msg).
Proof.
  split; [| split].
  - intros user Hauth%is_admin_authorised. unfold autoscrape. rewrite Hauth.
    cbn [bind negb]. unfold with_autoscrape. destruct enable; eexists; split;
      try reflexivity; rewrite ?append_cons; congruence.
  - intros user Hnot%is_admin_unauthorised. unfold autoscrape. by rewrite Hnot.
  - by eexists.
Qed.

Lemma autoscrape_admin_only_witness :
  (∃ reply, autoscrape [8; 5]%Z (Some MoreSamples.admin) false Samples.noon Samples.bot0
              = Ok (with_autoscrape Samples.bot0 false, reply) ∧
            reply ≠ "❌ Admin only.") ∧
  autoscrape [8; 5]%Z (Some MoreSamples.visitor) false Samples.noon Samples.bot0
    = Ok (Samples.bot0, "❌ Admin only.").
Proof.
  destruct (autoscrape_admin_only [8; 5]%Z false Samples.noon Samples.bot0)
    as (Hadmin & Hother & _).
  split.
  - apply Hadmin. left. exists 8%Z. split; apply (bool_decide_unpack _); vm_compute; exact I.
  - apply Hother. intros [(r & Hr & Hin) | Hperm]; [| done].
    apply list_elem_of_singleton in Hr. subst r. revert Hin.
    apply (bool_decide_unpack _). vm_compute. exact I.
Defined.

(** X28.  Once an authorised caller has switched polling off, a pass of
    the polling loop fetches nothing and sends nothing: it sleeps ten
    seconds and leaves the state as it is. *)
Theorem autoscrape_off_stops_polling (ADMIN_ROLE_IDS : list Z) (user : member_t)
    (OWNER_ID : string) (now now1 now2 : datetime) (channel : option Z)
    (bot : bot_state) (w : world) :
  authorised ADMIN_ROLE_IDS user →
  ∃ bot' reply,
    autoscrape ADMIN_ROLE_IDS (Some user) false now bot = Ok (bot', reply) ∧
    polling_loop_pass OWNER_ID now1 now2 channel bot' w =
      (None, (bot', await_sleep 10 w)).
Proof.
  intros Hauth%is_admin_authorised. unfold autoscrape. rewrite Hauth.
  cbn [bind negb]. by do 2 eexists.
Qed.

Lemma autoscrape_off_stops_polling_witness :
  ∃ bot' reply,
    autoscrape [8; 5]%Z (Some MoreSamples.admin) false Samples.noon Samples.bot0
      = Ok (bot', reply) ∧
    polling_loop_pass "1" Samples.noon Samples.noon (Some 7%Z) bot'
        Samples.world_third_time =
      (None, (bot', await_sleep 10 Samples.world_third_time)).
Proof.
  apply (autoscrape_off_stops_polling [8; 5]%Z MoreSamples.admin "1" Samples.noon
           Samples.noon Samples.noon (Some 7%Z) Samples.bot0 Samples.world_third_time).
  left. exists 8%Z. split; apply (bool_decide_unpack _); vm_compute; exact I.
Defined.

End ChannelFacts.

(** ** What a pass of the polling loop sends *)

Section PassFacts.

Local Open Scope Z_scope.

Lemma sends_app (t1 t2 : list event) : sends (t1 ++ t2) = sends t1 ++ sends t2.
Proof. unfold sends. apply omap_app. Qed.

Lemma sends_attempts (delay : Z) (k : nat) : sends (attempts_trace delay k) = [].
Proof. induction k as [|k IH]; [done |]. exact IH. Qed.

(** X29.  A pass of the polling loop sends at most two messages, all of
    them to the channel it was given; without a channel the page is
    fetched all the same, but nothing is sent and the state is left as
    it was, known items included. *)
Theorem polling_loop_sends (OWNER_ID : string) (now : datetime)
    (channel : option Z) (bot : bot_state) (w : world) :
  (∃ new, sends (trace (polling_loop_iteration OWNER_ID now channel bot w).2)
            = sends (trace w) ++ new ∧
          (length new ≤ 2)%nat ∧
          ∀ c m, (c, m) ∈ new → channel = Some c) ∧
  (fetched w < fetched (polling_loop_iteration OWNER_ID now channel bot w).2)%nat ∧
  (channel = None →
   (polling_loop_iteration OWNER_ID now channel bot w).1 = bot ∧
   sends (trace (polling_loop_iteration OWNER_ID now channel bot w).2)
     = sends (trace w)).
Proof.
  unfold polling_loop_iteration.
  assert (Hretry : ∃ r k, scrape_with_retries 3 4 w = (r, after_attempts 4 w k)).
  { destruct (scrape_with_retries_cases w) as [(k & stock & _ & _ & _ & ->) | [_ ->]];
      eauto. }
  destruct Hretry as ([stock error] & k & ->).
  assert (Hsends : sends (trace (after_attempts 4 w k)) = sends (trace w)).
  { cbn. by rewrite sends_app, sends_attempts, app_nil_r. }
  destruct channel as [channel|].
  - split; [| split; [| done]].
    + destruct stock as [stock|].
      * rewrite publish_world. cbn [snd trace]. rewrite !sends_app.
        fold (trace (after_attempts 4 w k)). rewrite Hsends.
        eexists. split; [reflexivity |]. case_decide; cbn.
        -- split; [lia |]. intros c m Hin. apply list_elem_of_singleton in Hin.
           by simplify_eq.
        -- split; [lia |]. intros c m Hin.
           apply elem_of_cons in Hin as [Hin | Hin];
             [| apply list_elem_of_singleton in Hin]; by simplify_eq.
      * cbn [snd await_send trace]. rewrite sends_app.
        fold (trace (after_attempts 4 w k)). rewrite Hsends.
        eexists. split; [reflexivity |]. cbn. split; [lia |].
        intros c m Hin. apply list_elem_of_singleton in Hin. by simplify_eq.
    + destruct stock as [stock|].
      * rewrite publish_world. cbn. lia.
      * cbn. lia.
  - split; [| split].
    + exists []. rewrite app_nil_r. cbn [snd await_sleep trace]. rewrite sends_app.
      fold (trace (after_attempts 4 w k)). rewrite Hsends. cbn.
      rewrite app_nil_r. split; [done |]. split; [lia |].
      intros c m Hin. by apply elem_of_nil in Hin.
    + cbn. lia.
    + intros _. split; [done |]. cbn [snd await_sleep trace]. rewrite sends_app.
      fold (trace (after_attempts 4 w k)). rewrite Hsends. cbn.
      by rewrite app_nil_r.
Qed.

Lemma polling_loop_sends_witness :
  (polling_loop_iteration "1" Samples.noon None Samples.bot0
     Samples.world_third_time).1 = Samples.bot0 ∧
  sends (trace (polling_loop_iteration "1" Samples.noon None Samples.bot0
                  Samples.world_third_time).2) = [].
Proof.
  apply (polling_loop_sends "1" Samples.noon None Samples.bot0
           Samples.world_third_time).
  reflexivity.
Defined.

Lemma hms_after_grid (now : datetime) :
  valid now → minute now mod 5 = 1 →
  hms_after now 300 =
    hms (hour (calculate_next_scrape_time now))
        (minute (calculate_next_scrape_time now)) (second now).
Proof.
  intros (Hh & Hm & Hs & _) Hmod.
  assert (Hnext : hour (calculate_next_scrape_time now) =
                    (if minute now <? 56 then hour now
                     else if hour now =? 23 then 0 else hour now + 1) ∧
                  minute (calculate_next_scrape_time now) =
                    (if minute now <? 56 then minute now + 5 else 1)).
  { unfold calculate_next_scrape_time.
    pose proof (Z.div_mod (minute now) 5 ltac:(lia)) as Hdm.
    case_tests; cbn [hour minute replace]; split; lia. }
  destruct Hnext as [-> ->]. unfold hms_after.
  destruct (Z.ltb_spec (minute now) 56); [| destruct (Z.eqb_spec (hour now) 23)];
    f_equal; Z.div_mod_to_equations; lia.
Qed.

(** X30.  In a publication made in a minute of the polling grid, with
    the interval of five minutes, the footer announces as next update
    the time of day the scheduler returns, moved by the seconds that
    have passed since the minute began; midnight included. *)
Theorem footer_next_update (stock : stock_t) (now : datetime) (bot : bot_state) :
  valid now → minute now mod 5 = 1 → current_interval bot = 300 →
  footer (build_embed stock now bot).1.1 =
    "Scraped: " +:+ hms (hour now) (minute now) (second now) +:+
    " EST | Next: " +:+
    hms (hour (calculate_next_scrape_time now))
        (minute (calculate_next_scrape_time now)) (second now) +:+ " EST".
Proof.
  intros Hvalid Hmod Hinterval. unfold build_embed. cbn [fst footer].
  by rewrite Hinterval, hms_after_grid.
Qed.

Lemma footer_next_update_witness :
  footer (build_embed Samples.stock1 Samples.noon Samples.bot0).1.1 =
    "Scraped: 12:01:02 EST | Next: 12:06:02 EST".
Proof.
  refine (eq_trans (footer_next_update Samples.stock1 Samples.noon Samples.bot0 _ _ _) _).
  - vm_compute. repeat split; discriminate.
  - reflexivity.
  - reflexivity.
  - vm_compute. reflexivity.
Defined.

End PassFacts.
